(** * VerifiAI: the credibility scoring and explanation engine

    A shallow embedding of [app/model.py], [app/factcheck.py] and the
    [verify] route of [app/main.py], followed by the properties of the
    engine.

    Conventions of the embedding.
    - A Python [str] is a [string]; the character tests ([str.isupper],
      [str.lower], [str.strip], the regular-expression class [\s]) are the
      ASCII fragments of the Python ones, bytes above 127 being caseless
      symbols.
    - A Python [int] is a [Z].  A Python [float] is an exact rational [Q]:
      decimal literals denote their decimal value, and [round] is the
      round-half-to-even of Python 3.
    - A raised exception is the [Raise] branch of [Res]; every function
      that can raise lives in that monad.
    - The language-analysis client, the fact-check search and the
      document store are parameters ([Client], [Env]). *)

From Stdlib Require Import ZArith QArith Qround Qminmax Lqa String Ascii List Bool Lia.
From Stdlib Require Import Sorting.Sorted Sorting.Permutation DecimalString.
Import ListNotations.

Local Open Scope string_scope.
Local Open Scope list_scope.

(** ** Python primitives *)

Module Py.

(** *** Exceptions *)

Inductive Res (A : Type) : Type :=
| Ok (a : A)
| Raise (exn : string).
Arguments Ok {A} a.
Arguments Raise {A} exn.

Definition bind {A B : Type} (m : Res A) (k : A -> Res B) : Res B :=
  match m with
  | Ok a => k a
  | Raise e => Raise e
  end.

Definition raises {A : Type} (m : Res A) : bool :=
  match m with Ok _ => false | Raise _ => true end.

(** [for x in l: acc = body(acc, x)] where the body may raise. *)
Fixpoint for_each {A S : Type} (body : S -> A -> Res S) (l : list A) (acc : S)
  : Res S :=
  match l with
  | [] => Ok acc
  | x :: l' => bind (body acc x) (for_each body l')
  end.

(** *** Characters *)

Definition code (c : ascii) : nat := nat_of_ascii c.

Definition between (lo hi n : nat) : bool := (lo <=? n)%nat && (n <=? hi)%nat.

Definition char_isupper (c : ascii) : bool := between 65 90 (code c).
Definition char_islower (c : ascii) : bool := between 97 122 (code c).
Definition char_isalpha (c : ascii) : bool := char_isupper c || char_islower c.

(** [str.isspace] on one character: TAB..CR, FS..US and the space. *)
Definition char_isspace (c : ascii) : bool :=
  between 9 13 (code c) || between 28 32 (code c).

Definition char_lower (c : ascii) : ascii :=
  if char_isupper c then ascii_of_nat (code c + 32) else c.

(** *** Strings *)

Definition is_empty (s : string) : bool :=
  match s with EmptyString => true | String _ _ => false end.

Definition len (s : string) : Z := Z.of_nat (String.length s).

(** [sum(1 for c in s if p(c))] *)
Fixpoint count_if (p : ascii -> bool) (s : string) : Z :=
  match s with
  | EmptyString => 0
  | String c s' => ((if p c then 1 else 0) + count_if p s')%Z
  end.

(** [s.count(c)] for a one-character needle. *)
Definition count_char (c : ascii) (s : string) : Z :=
  count_if (Ascii.eqb c) s.

(** [s.lower()] *)
Fixpoint lower (s : string) : string :=
  match s with
  | EmptyString => EmptyString
  | String c s' => String (char_lower c) (lower s')
  end.

(** [s[:n]] for [n >= 0] *)
Fixpoint take (n : nat) (s : string) : string :=
  match n, s with
  | O, _ => EmptyString
  | S _, EmptyString => EmptyString
  | S n', String c s' => String c (take n' s')
  end.

Fixpoint lstrip (s : string) : string :=
  match s with
  | EmptyString => EmptyString
  | String c s' => if char_isspace c then lstrip s' else s
  end.

Fixpoint rstrip (s : string) : string :=
  match s with
  | EmptyString => EmptyString
  | String c s' =>
      let r := rstrip s' in
      if is_empty r && char_isspace c then EmptyString else String c r
  end.

(** [s.strip()] *)
Definition strip (s : string) : string := lstrip (rstrip s).

(** [pat in s] *)
Fixpoint contains (pat s : string) : bool :=
  String.prefix pat s ||
  match s with
  | EmptyString => false
  | String _ s' => contains pat s'
  end.

(** [s.split(sep)] for a one-character separator, as the first piece and
    the pieces after it. *)
Fixpoint split_pieces (sep : ascii) (s : string) : string * list string :=
  match s with
  | EmptyString => (EmptyString, [])
  | String c s' =>
      let '(p, ps) := split_pieces sep s' in
      if Ascii.eqb c sep then (EmptyString, p :: ps) else (String c p, ps)
  end.

Definition split (sep : ascii) (s : string) : list string :=
  let '(p, ps) := split_pieces sep s in p :: ps.

(** [sep.join(l)] *)
Definition join (sep : string) (l : list string) : string :=
  String.concat sep l.

(** [x in l] for a list or a set of strings. *)
Definition mem (x : string) (l : list string) : bool :=
  existsb (String.eqb x) l.

(** [list(dict.fromkeys(l))]: first occurrences, in order. *)
Fixpoint fromkeys_from (seen : list string) (l : list string) : list string :=
  match l with
  | [] => []
  | x :: l' =>
      if mem x seen then fromkeys_from seen l'
      else x :: fromkeys_from (x :: seen) l'
  end.

Definition fromkeys (l : list string) : list string := fromkeys_from [] l.

(** [re.findall(r"[a-zA-Z]+", s)]: the maximal runs of letters, as the
    run that starts at the head of [s] (possibly empty) and the runs
    after it. *)
Fixpoint alpha_runs (s : string) : string * list string :=
  match s with
  | EmptyString => (EmptyString, [])
  | String c s' =>
      let '(run, runs) := alpha_runs s' in
      if char_isalpha c then (String c run, runs)
      else (EmptyString, if is_empty run then runs else run :: runs)
  end.

Definition findall_alpha (s : string) : list string :=
  let '(run, runs) := alpha_runs s in
  if is_empty run then runs else run :: runs.

Definition is_sentence_end (c : ascii) : bool :=
  Ascii.eqb c "." || Ascii.eqb c "!" || Ascii.eqb c "?".

(** The scanner of [re.split(r'(?<=[.!?])\s+', s)]. *)
Inductive split_state : Type :=
| AfterChar (sentence_end : bool)   (* inside a piece; was the last character one of .!? *)
| InSeparator.                      (* inside a matched run of whitespace *)

Fixpoint resplit_pieces (st : split_state) (s : string) : string * list string :=
  match s with
  | EmptyString => (EmptyString, [])
  | String c s' =>
      match st with
      | InSeparator =>
          if char_isspace c then resplit_pieces InSeparator s'
          else
            let '(p, ps) := resplit_pieces (AfterChar (is_sentence_end c)) s' in
            (String c p, ps)
      | AfterChar e =>
          if e && char_isspace c then
            let '(p, ps) := resplit_pieces InSeparator s' in
            (EmptyString, p :: ps)
          else
            let '(p, ps) := resplit_pieces (AfterChar (is_sentence_end c)) s' in
            (String c p, ps)
      end
  end.

Definition resplit_sentences (s : string) : list string :=
  let '(p, ps) := resplit_pieces (AfterChar false) s in p :: ps.

(** *** Numbers *)

(** [a / b] on two ints. *)
Definition truediv (a b : Z) : Res Q :=
  if (b =? 0)%Z then Raise "ZeroDivisionError"
  else Ok (inject_Z a / inject_Z b)%Q.

Definition float_lt (a b : Q) : bool :=
  if Qlt_le_dec a b then true else false.
Definition float_le (a b : Q) : bool :=
  if Qlt_le_dec b a then false else true.

(** [min(a, b)] on floats: the first argument unless the second is
    strictly smaller. *)
Definition fmin (a b : Q) : Q := if float_lt b a then b else a.

(** [round(x)]: the nearest integer, ties to the even one. *)
Definition round_half_even (x : Q) : Z :=
  let fl := Qfloor x in
  match (x - inject_Z fl ?= 1 # 2)%Q with
  | Lt => fl
  | Gt => (fl + 1)%Z
  | Eq => if Z.even fl then fl else (fl + 1)%Z
  end.

(** [round(x, ndigits)] *)
Definition round_digits (x : Q) (ndigits : nat) : Q :=
  let p := Z.pow 10 (Z.of_nat ndigits) in
  (inject_Z (round_half_even (x * inject_Z p)) / inject_Z p)%Q.

(** *** Formatting *)

(** [str(n)] *)
Definition str_int (n : Z) : string := NilZero.string_of_int (Z.to_int n).

Definition two_digits (n : Z) : string :=
  (if (n <? 10)%Z then "0" else "") ++ str_int n.

(** [f"{x:.2f}"] *)
Definition format_2f (x : Q) : string :=
  let h := round_half_even (x * inject_Z 100) in
  let a := Z.abs h in
  (if (h <? 0)%Z then "-" else "")
    ++ str_int (a / 100) ++ "." ++ two_digits (a mod 100).

End Py.

Import Py.

Notation "x <- m ;; k" := (Py.bind m (fun x => k))
  (at level 61, m at next level, right associativity).
Notation "' p <- m ;; k" := (Py.bind m (fun x => match x with p => k end))
  (at level 61, p pattern, m at next level, right associativity).

(** ** The language-analysis provider (google.cloud.language_v2) *)

Module Provider.

Record Sentiment : Type := {
  magnitude : Q;
  sentiment_score : Q
}.

(** Truth value of a sentiment message: some field is set. *)
Definition truthy (s : Sentiment) : bool :=
  negb (Qeq_bool (magnitude s) 0 && Qeq_bool (sentiment_score s) 0).

Record Sentence : Type := {
  text_content : string;
  sentence_sentiment : Sentiment
}.

Record SentimentResponse : Type := {
  document_sentiment : Sentiment;
  sentences : list Sentence
}.

Record Entity : Type := {
  name : string;
  type_ : string;
  salience : Q;
  metadata : list (string * string)
}.

Record Category : Type := {
  category_name : string
}.

Record Document : Type := {
  content : string;
  language_code : option string
}.

Record Client : Type := {
  analyze_sentiment : Document -> Res SentimentResponse;
  analyze_entities : Document -> Res (list Entity);
  classify_text : Document -> Res (list Category)
}.

(** [key in md] and [md.get(key)] *)
Fixpoint md_get (key : string) (md : list (string * string)) : option string :=
  match md with
  | [] => None
  | (k, v) :: md' => if String.eqb key k then Some v else md_get key md'
  end.

Definition md_has (key : string) (md : list (string * string)) : bool :=
  match md_get key md with Some _ => true | None => false end.

End Provider.

(** ** app/model.py *)

Module Model.

Import Provider.

Definition SENSATIONAL : list string :=
  [ "shocking"; "unbelievable"; "exposed"; "scandal"; "meltdown";
    "destroyed"; "bombshell"; "secretly"; "banned"; "miracle"; "cure";
    "guaranteed"; "instant" ].

Definition _split_sentences (text : string) : list string :=
  resplit_sentences (strip text).

(** [[w for w in re.findall(r"[a-zA-Z]+", text.lower()) if w in SENSATIONAL]] *)
Definition sensational_words (text : string) : list string :=
  filter (fun w => mem w SENSATIONAL) (findall_alpha (lower text)).

Definition _text_red_flags (text : string) : Res Q :=
  caps_ratio <- truediv (count_if char_isupper text) (Z.max 1 (len text)) ;;
  let exclam := count_char "!" text in
  let sensational_hits := Z.of_nat (List.length (sensational_words text)) in
  let penalty := 0%Q in
  let penalty := if float_lt 0.12 caps_ratio then (penalty + 0.2)%Q else penalty in
  let penalty := if (3 <=? exclam)%Z then (penalty + 0.15)%Q else penalty in
  let penalty := (penalty + fmin 0.25 (inject_Z sensational_hits * 0.05))%Q in
  Ok (fmin 0.6 penalty).

Definition grounded (e : Entity) : bool :=
  md_has "wikipedia_url" (metadata e) || md_has "mid" (metadata e).

Definition _entity_quality (entities : list Entity) : Q :=
  let score :=
    fold_left (fun score e => if grounded e then (score + 0.03)%Q else score)
              (firstn 25 entities) 0%Q in
  fmin 0.3 score.

(** What [_analyze] returns: the triple [(None, [], [])] or the four
    results of the provider. *)
Inductive Analysis : Type :=
| Degraded
| Analyzed (sentiment : Sentiment) (sentences : list (string * Q))
           (entities : list Entity) (categories : list Category).

Definition plain_text (text : string) (lang : option string) : Document :=
  {| content := take (Z.to_nat 20000) text; language_code := lang |}.

Definition _analyze (client : option Client) (text : string)
           (language_code : string) : Res Analysis :=
  match client with
  | None => Ok Degraded
  | Some client =>
      let doc := plain_text text (Some language_code) in
      let sresp :=
        match analyze_sentiment client doc with
        | Ok sresp => Some sresp
        | Raise _ =>
            let auto_doc := plain_text text None in
            match analyze_sentiment client auto_doc with
            | Ok sresp => Some sresp
            | Raise _ => None
            end
        end in
      match sresp with
      | None => Ok Degraded
      | Some sresp =>
          let sentiment := document_sentiment sresp in
          let sentences :=
            map (fun s => (text_content s, magnitude (sentence_sentiment s)))
                (Provider.sentences sresp) in
          entities <- analyze_entities client (plain_text text None) ;;
          let categories :=
            match Provider.classify_text client (plain_text text None) with
            | Ok cats => cats
            | Raise _ => []
            end in
          Ok (Analyzed sentiment sentences entities categories)
      end
  end.

(** [sorted(l, key=key, reverse=True)]: stable, largest key first. *)
Fixpoint insert_desc {A : Type} (key : A -> Q) (x : A) (l : list A) : list A :=
  match l with
  | [] => [x]
  | y :: l' =>
      if float_lt (key x) (key y) then y :: insert_desc key x l'
      else x :: l
  end.

Definition sorted_desc {A : Type} (key : A -> Q) (l : list A) : list A :=
  fold_right (insert_desc key) [] l.

(** [sorted(l)] on strings: ascending code-point order. *)
Fixpoint insert_str (x : string) (l : list string) : list string :=
  match l with
  | [] => [x]
  | y :: l' => if String.ltb y x then y :: insert_str x l' else x :: l
  end.

Definition sorted_str (l : list string) : list string :=
  fold_right insert_str [] l.

Record KeyEntity : Type := {
  ke_name : string;
  ke_type : string;
  ke_salience : Q;
  ke_wikipedia_url : option string;
  ke_mid : option string
}.

Record Insights : Type := {
  key_entities : list KeyEntity;
  sensational_terms : list string;
  notable_sentences : list string
}.

Record Features : Type := {
  sensational_penalty : Q;
  sentiment_magnitude : Q;
  entity_wiki_hits : Z;
  categories : list string
}.

Record Result : Type := {
  label : string;
  score : Z;
  confidence : Q;
  features : Features;
  insights : Insights
}.

(** The body shared by the two candidate loops of [_collect_insights]. *)
Definition shout_bonus (s : string) : Res Q :=
  caps_ratio <- truediv (count_if char_isupper s) (Z.max 1 (len s)) ;;
  let exclam := count_char "!" s in
  Ok ((if (1 <=? exclam)%Z then 0.8 else 0.0)
      + (if float_lt 0.12 caps_ratio then 0.8 else 0.0))%Q.

Definition _collect_insights (text : string) (sentences : list (string * Q))
           (entities : list Entity) : Res Insights :=
  let key_entities :=
    map (fun e =>
           {| ke_name := name e;
              ke_type := type_ e;
              ke_salience := salience e;
              ke_wikipedia_url := md_get "wikipedia_url" (metadata e);
              ke_mid := md_get "mid" (metadata e) |})
        (firstn 8 (sorted_desc salience entities)) in
  let words := findall_alpha (lower text) in
  let sensational_terms :=
    firstn 10 (sorted_str (fromkeys (filter (fun w => mem w SENSATIONAL) words))) in
  candidates <-
    for_each (fun candidates '(s, mag) =>
                bonus <- shout_bonus s ;;
                Ok (candidates ++ [((mag + bonus)%Q, strip s)]))
             sentences [] ;;
  candidates <-
    match candidates with
    | [] => for_each (fun candidates s =>
                        bonus <- shout_bonus s ;;
                        Ok (candidates ++ [(bonus, strip s)]))
                     (firstn 8 (_split_sentences text)) candidates
    | _ :: _ => Ok candidates
    end ;;
  let notable_sentences :=
    filter (fun s => negb (is_empty s))
           (map snd (firstn 3 (sorted_desc fst candidates))) in
  Ok {| key_entities := key_entities;
        sensational_terms := sensational_terms;
        notable_sentences := notable_sentences |}.

Definition category_hit (c : string) : bool :=
  contains "news" c || contains "law & government" c || contains "business" c.

Definition label_of (score : Z) : string :=
  if (70 <=? score)%Z then "true"
  else if (score <=? 30)%Z then "fake"
  else "uncertain".

Definition classify_text (client : option Client) (text : string)
           (language_code : string) : Res Result :=
  result <- _analyze client text language_code ;;
  match result with
  | Degraded =>
      penalty <- _text_red_flags text ;;
      Ok {| label := "uncertain";
            score := 50;
            confidence := 0.3;
            features :=
              {| sensational_penalty := penalty;
                 sentiment_magnitude := 0.0;
                 entity_wiki_hits := 0;
                 categories := [] |};
            insights :=
              {| key_entities := [];
                 sensational_terms := firstn 10 (sensational_words text);
                 notable_sentences := firstn 2 (_split_sentences text) |} |}
  | Analyzed sentiment sentences entities categories =>
      let score := 50.0%Q in
      let score :=
        match categories with
        | [] => score
        | _ :: _ =>
            let catnames := map (fun c => lower (category_name c)) categories in
            if existsb category_hit catnames then (score + 5)%Q else score
        end in
      let score := (score + _entity_quality entities * 100)%Q in
      let score :=
        if truthy sentiment then
          let mag := magnitude sentiment in
          (score - fmin 20.0 (mag * 3.0))%Q
        else score in
      penalty <- _text_red_flags text ;;
      let score := (score - penalty * 100)%Q in
      let score := Z.max 0 (Z.min 100 (round_half_even score)) in
      let label := label_of score in
      ratio <- truediv (Z.abs (score - 50)) 50 ;;
      let confidence := round_digits ratio 2 in
      insights <- _collect_insights text sentences entities ;;
      let features :=
        {| entity_wiki_hits :=
             Z.min 25 (Z.of_nat (List.length (filter grounded (firstn 25 entities))));
           sentiment_magnitude :=
             if truthy sentiment then magnitude sentiment else 0.0;
           sensational_penalty := round_digits penalty 3;
           categories := firstn 5 (map category_name categories) |} in
      Ok {| label := label;
            score := score;
            confidence := confidence;
            features := features;
            insights := insights |}
  end.

End Model.

(** ** app/factcheck.py *)

Module Factcheck.

(** A review and a claim of the fact-check search; [None] is a missing key. *)
Record Review : Type := {
  publisher_name : option string;
  title : option string;
  textRating : option string;
  url : option string
}.

Record Claim : Type := {
  claimReview : list Review
}.

Definition get_default (v : option string) (default : string) : string :=
  match v with Some s => s | None => default end.

(** [v or default] on an optional string. *)
Definition or_else (v : option string) (default : string) : string :=
  match v with
  | Some s => if is_empty s then default else s
  | None => default
  end.

Definition FAKE_WORDS : list string :=
  ["false"; "fake"; "pants on fire"; "incorrect"; "misleading"].
Definition TRUE_WORDS : list string :=
  ["true"; "correct"; "mostly true"; "accurate"].

(** [any(x in rating for x in words)] *)
Definition any_in (words : list string) (rating : string) : bool :=
  existsb (fun x => contains x rating) words.

Definition summary_line (publisher rating title url : string) : string :=
  publisher ++ ": " ++ rating ++ " — " ++ title ++ " (" ++ url ++ ")".

(** The body of the inner loop, on the pair (verdict, summary). *)
Definition review_step (st : option string * list string) (r : Review)
  : option string * list string :=
  let '(verdict, summary) := st in
  let publisher := get_default (publisher_name r) "Unknown" in
  let title := get_default (title r) "" in
  let rating := lower (or_else (textRating r) "") in
  let url := get_default (url r) "" in
  let summary := summary ++ [summary_line publisher rating title url] in
  let verdict := if any_in FAKE_WORDS rating then Some "fake" else verdict in
  let verdict :=
    if any_in TRUE_WORDS rating then Some (or_else verdict "true") else verdict in
  (verdict, summary).

Definition claim_step (st : option string * list string) (c : Claim)
  : option string * list string :=
  fold_left review_step (claimReview c) st.

(** [fact_check_search]: any failure of the search is an empty list. *)
Definition fact_check_search (api : string -> string -> Res (list Claim))
           (query lang : string) : list Claim :=
  match api query lang with
  | Ok claims => claims
  | Raise _ => []
  end.

Definition summarize_claims (claims : list Claim) : option string * list string :=
  match claims with
  | [] => (None, [])
  | _ :: _ =>
      let '(verdict, summary) :=
        fold_left claim_step (firstn 5 claims) (None, []) in
      (Some (or_else verdict "uncertain"), summary)
  end.

End Factcheck.

(** ** app/main.py *)

Module Main.

Import Provider Model Factcheck.

Definition dquote : string := String (ascii_of_nat 34) EmptyString.

Definition GENERIC_LINE : string :=
  "Computed from entity grounding, sentiment magnitude, and sensational-text heuristics.".

(** [c.split("/")[-1] if "/" in c else c] *)
Definition shorten (c : string) : string :=
  if contains "/" c then last (split "/" c) EmptyString else c.

(** The category loop of [verify], from the state [(seen_cat, cats)]. *)
Fixpoint cats_loop (raw_cats : list string) (seen_cat cats : list string)
  : list string :=
  match raw_cats with
  | [] => cats
  | c :: rest =>
      if is_empty c then cats_loop rest seen_cat cats
      else
        let short := shorten c in
        let key := lower short in
        let '(seen_cat, cats) :=
          if negb (mem key seen_cat) then (key :: seen_cat, cats ++ [short])
          else (seen_cat, cats) in
        if (3 <=? List.length cats)%nat then cats
        else cats_loop rest seen_cat cats
  end.

Definition has_wiki (e : KeyEntity) : bool :=
  match ke_wikipedia_url e with
  | Some u => negb (is_empty u)
  | None => false
  end.

(** The key-entity loop of [verify], from the state [(seen, names)]. *)
Fixpoint names_loop (ke : list KeyEntity) (seen names : list string)
  : list string :=
  match ke with
  | [] => names
  | e :: rest =>
      let nm := ke_name e in
      if is_empty nm then names_loop rest seen names
      else
        let k := lower (strip nm) in
        if mem k seen then names_loop rest seen names
        else
          let seen := k :: seen in
          let nm := if has_wiki e then (nm ++ " (wiki)")%string else nm in
          let names := names ++ [nm] in
          if (4 <=? List.length names)%nat then names
          else names_loop rest seen names
  end.

(** The notable-sentence loop of [verify], from the state
    [(seen_lines, notables)]. *)
Fixpoint notables_loop (sentences : list string) (seen_lines notables : list string)
  : list string :=
  match sentences with
  | [] => notables
  | s :: rest =>
      let s := strip s in
      if is_empty s then notables_loop rest seen_lines notables
      else
        let k := lower s in
        if mem k seen_lines then notables_loop rest seen_lines notables
        else
          let seen_lines := k :: seen_lines in
          let notables := notables ++ [s] in
          if (2 <=? List.length notables)%nat then notables
          else notables_loop rest seen_lines notables
  end.

Definition penalty_line (pen : Q) : string :=
  "Sensational writing patterns detected (penalty " ++ format_2f pen ++ ")".
Definition tone_line (mag : Q) : string :=
  "High emotional tone (sentiment magnitude ≈ " ++ format_2f mag ++ ")".
Definition grounded_line (wiki_hits : Z) : string :=
  "Grounded entities found: " ++ str_int wiki_hits
    ++ " linked to Wikipedia/Knowledge Graph".
Definition cats_line (cats : list string) : string :=
  "Topical category hints: " ++ join ", " cats.
Definition names_line (names : list string) : string :=
  "Key entities: " ++ join ", " names.
Definition terms_line (terms : list string) : string :=
  "Sensational terms in text: " ++ join ", " terms.

Definition snippet (s : string) : string :=
  take 160 s ++ (if (160 <? len s)%Z then "…" else "").
Definition notable_line (s : string) : string :=
  "Notable line: " ++ dquote ++ snippet s ++ dquote.

Definition nonempty {A : Type} (l : list A) : bool :=
  match l with [] => false | _ :: _ => true end.

(** Step 2 of [verify]: the explanation built from the features and the
    insights of the result. *)
Definition compose_explanation (f : Features) (i : Insights) : list string :=
  let explanation : list string := [] in
  let pen := sensational_penalty f in
  let mag := sentiment_magnitude f in
  let wiki_hits := entity_wiki_hits f in
  let raw_cats := categories f in
  let cats := cats_loop raw_cats [] [] in
  let terms := firstn 6 (fromkeys (sensational_terms i)) in
  let names := names_loop (key_entities i) [] [] in
  let notables := notables_loop (notable_sentences i) [] [] in
  let explanation :=
    if float_lt 0 pen then explanation ++ [penalty_line pen] else explanation in
  let explanation :=
    if float_le 1.0 mag then explanation ++ [tone_line mag] else explanation in
  let explanation :=
    if (0 <? wiki_hits)%Z then explanation ++ [grounded_line wiki_hits]
    else explanation in
  let explanation :=
    if nonempty cats then explanation ++ [cats_line cats] else explanation in
  let explanation :=
    if nonempty names then explanation ++ [names_line names] else explanation in
  let explanation :=
    if nonempty terms then explanation ++ [terms_line terms] else explanation in
  let explanation :=
    fold_left (fun explanation s => explanation ++ [notable_line s])
              notables explanation in
  if nonempty explanation then explanation else explanation ++ [GENERIC_LINE].

Definition verdict_line (fc_verdict : string) : string :=
  "Fact Check verdict: " ++ fc_verdict.

(** [fc_verdict and fc_verdict in ["true", "fake"]] *)
Definition overrides (fc_verdict : option string) : option string :=
  match fc_verdict with
  | Some v => if negb (is_empty v) && mem v ["true"; "fake"] then Some v else None
  | None => None
  end.

Definition set_verdict (result : Result) (v : string) : Result :=
  {| label := v;
     score := if String.eqb v "true" then 85 else 15;
     confidence := 0.9;
     features := features result;
     insights := insights result |}.

(** Step 4 of [verify]: the fact-check verdict merged into the result and
    the explanation. *)
Definition merge_verdict (result : Result) (explanation : list string)
           (fc_verdict : option string) (fc_summary : list string)
  : Result * list string :=
  let '(result, explanation) :=
    match overrides fc_verdict with
    | Some v => (set_verdict result v, verdict_line v :: explanation)
    | None => (result, explanation)
    end in
  let explanation :=
    if nonempty fc_summary then explanation ++ firstn 3 fc_summary
    else explanation in
  (result, explanation).

(** The collaborators of the route. *)
Record Env : Type := {
  client : option Client;
  get_db : Res unit;
  search_api : string -> string -> Res (list Claim);
  save_article : string -> string -> Res string;
  save_verification : option string -> Result -> list string -> Res unit
}.

Record VerifyOut : Type := {
  out_article_id : option string;
  out_score : Z;
  out_label : string;
  out_confidence : Q;
  out_explanation : list string;
  out_features : Features;
  out_insights : Insights
}.

Definition db_note (exn : string) : string :=
  "(Note: DB save skipped: " ++ exn ++ ")".

(** The heuristic half of [verify] (steps 1 and 2). *)
Definition heuristic (env : Env) (text : string) : Res (Result * list string) :=
  let title := take 120 text in
  let lang := "en" in
  result <- Model.classify_text (client env) (title ++ ". " ++ text)%string lang ;;
  Ok (result, compose_explanation (features result) (insights result)).

Definition verify (env : Env) (input : string) : Res VerifyOut :=
  db <- get_db env ;;
  let text := strip input in
  let title := take 120 text in
  '(result, explanation) <- heuristic env text ;;
  let claims := fact_check_search (search_api env) title "en" in
  let '(fc_verdict, fc_summary) := summarize_claims claims in
  let '(result, explanation) :=
    merge_verdict result explanation fc_verdict fc_summary in
  let explanation :=
    if nonempty explanation then explanation else explanation ++ [GENERIC_LINE] in
  let '(article_id, explanation) :=
    match save_article env (take 100 text) text with
    | Raise e => (None, explanation ++ [db_note e])
    | Ok id =>
        match save_verification env (Some id) result explanation with
        | Raise e => (Some id, explanation ++ [db_note e])
        | Ok _ => (Some id, explanation)
        end
    end in
  Ok {| out_article_id := article_id;
        out_score := score result;
        out_label := label result;
        out_confidence := confidence result;
        out_explanation := explanation;
        out_features := features result;
        out_insights := insights result |}.

End Main.

(** ** The specification, in its own words

    The definitions of this module follow the prose of the specification
    (sections 4.1, 4.4, 4.5 and 4.6); the theorems below compare them with
    the code above. *)

Module Spec.

Import Provider Model Factcheck Main.

Definition clamp (lo hi x : Q) : Q := Qmax lo (Qmin hi x).

(** *** 4.1 Signal extractor *)

Definition caps_ratio (text : string) : Q :=
  (inject_Z (count_if char_isupper text) / inject_Z (Z.max 1 (len text)))%Q.

Definition exclam_count (text : string) : Z := count_char "!" text.

Definition sensational_hits (text : string) : Z :=
  Z.of_nat (List.length (sensational_words text)).

Definition penalty (caps_ratio : Q) (exclam_count sensational_hits : Z) : Q :=
  Qmin 0.6
       (0
        + (if Qlt_le_dec 0.12 caps_ratio then 0.20 else 0)
        + (if (3 <=? exclam_count)%Z then 0.15 else 0)
        + Qmin 0.25 (inject_Z sensational_hits * 0.05))%Q.

(** *** 4.4 Scorer *)

(** [pat] occurs in [s] up to the case of the letters. *)
Fixpoint ci_prefix (pat s : string) : bool :=
  match pat, s with
  | EmptyString, _ => true
  | String _ _, EmptyString => false
  | String a pat', String b s' =>
      Ascii.eqb (char_lower a) (char_lower b) && ci_prefix pat' s'
  end.

Fixpoint ci_contains (pat s : string) : bool :=
  ci_prefix pat s ||
  match s with
  | EmptyString => false
  | String _ s' => ci_contains pat s'
  end.

Definition category_bonus (categories : list Category) : Q :=
  if existsb (fun c => ci_contains "news" (category_name c)
                       || ci_contains "law & government" (category_name c)
                       || ci_contains "business" (category_name c))
             categories
  then 5 else 0.

Definition grounded_count (entities : list Entity) : Z :=
  Z.of_nat (List.length (filter grounded (firstn 25 entities))).

Definition entity_quality_bonus (entities : list Entity) : Q :=
  Qmin 0.3 (0.03 * inject_Z (grounded_count entities)).

Definition raw_score (categories : list Category) (entities : list Entity)
           (sentiment_magnitude sensational_penalty : Q) : Q :=
  (50.0
   + category_bonus categories
   + 100 * entity_quality_bonus entities
   - Qmin 20 (sentiment_magnitude * 3)
   - sensational_penalty * 100)%Q.

Definition score (categories : list Category) (entities : list Entity)
           (sentiment_magnitude sensational_penalty : Q) : Z :=
  round_half_even
    (clamp 0 100 (raw_score categories entities sentiment_magnitude
                            sensational_penalty)).

(** [n] is an integer nearest to [x]. *)
Definition nearest_integer (x : Q) (n : Z) : Prop :=
  (x - (1 # 2) <= inject_Z n)%Q /\ (inject_Z n <= x + (1 # 2))%Q.

Definition confidence_of (score : Z) : Q :=
  round_digits (inject_Z (Z.abs (score - 50)) / inject_Z 50) 2.

(** Label and confidence agree with the score under the thresholds. *)
Definition label_consistent (r : Result) : Prop :=
  (label r = "true" <-> (70 <= Model.score r)%Z)
  /\ (label r = "fake" <-> (Model.score r <= 30)%Z)
  /\ (label r = "uncertain" <-> (30 < Model.score r < 70)%Z).

Definition consistent (r : Result) : Prop :=
  label_consistent r /\ (confidence r == confidence_of (Model.score r))%Q.

(** *** 4.5 Explanation composer *)

(** The first occurrence of every key, in order of appearance. *)
Fixpoint dedupe_from {A : Type} (key : A -> string) (seen : list string)
         (l : list A) : list A :=
  match l with
  | [] => []
  | x :: l' =>
      if mem (key x) seen then dedupe_from key seen l'
      else x :: dedupe_from key (key x :: seen) l'
  end.

Definition dedupe_by {A : Type} (key : A -> string) (l : list A) : list A :=
  dedupe_from key [] l.

Definition category_hints (raw_cats : list string) : list string :=
  firstn 3 (dedupe_by lower
              (map shorten (filter (fun c => negb (is_empty c)) raw_cats))).

Definition entity_key (e : KeyEntity) : string := lower (strip (ke_name e)).

Definition picked_entities (ke : list KeyEntity) : list KeyEntity :=
  firstn 4 (dedupe_by entity_key
              (filter (fun e => negb (is_empty (ke_name e))) ke)).

Definition entity_display (e : KeyEntity) : string :=
  if has_wiki e then (ke_name e ++ " (wiki)")%string else ke_name e.

Definition entity_names (ke : list KeyEntity) : list string :=
  map entity_display (picked_entities ke).

Definition shown_terms (terms : list string) : list string :=
  firstn 6 (dedupe_by (fun t => t) terms).

Definition shown_notables (sentences : list string) : list string :=
  firstn 2 (dedupe_by lower
              (filter (fun s => negb (is_empty s)) (map strip sentences))).


Definition line_if (condition : bool) (line : string) : list string :=
  if condition then [line] else [].

(** The seven groups of lines, in the order of section 4.5. *)
Definition explanation_body (f : Features) (i : Insights) : list string :=
  line_if (float_lt 0 (sensational_penalty f))
          (penalty_line (sensational_penalty f))
  ++ line_if (float_le 1.0 (sentiment_magnitude f))
             (tone_line (sentiment_magnitude f))
  ++ line_if (0 <? entity_wiki_hits f)%Z (grounded_line (entity_wiki_hits f))
  ++ line_if (nonempty (category_hints (categories f)))
             (cats_line (category_hints (categories f)))
  ++ line_if (nonempty (entity_names (key_entities i)))
             (names_line (entity_names (key_entities i)))
  ++ line_if (nonempty (shown_terms (sensational_terms i)))
             (terms_line (shown_terms (sensational_terms i)))
  ++ map notable_line (shown_notables (notable_sentences i)).

Definition explanation (f : Features) (i : Insights) : list string :=
  match explanation_body f i with
  | [] => [GENERIC_LINE]
  | body => body
  end.


(** *** 4.6 Claim-summary verdict *)

Definition rating_of (r : Review) : string :=
  lower (or_else (textRating r) "").

(** One review against the running verdict. *)
Definition verdict_step (verdict : option string) (r : Review) : option string :=
  if any_in FAKE_WORDS (rating_of r) then Some "fake"
  else if any_in TRUE_WORDS (rating_of r) then
         match verdict with
         | None => Some "true"
         | Some v => Some v
         end
       else verdict.

(** The values the running verdict takes. *)
Definition verdict_value (v : option string) : Prop :=
  v = None \/ v = Some "true" \/ v = Some "fake".

(** The reviews that are scanned: all those of the first five claims. *)
Definition scanned_reviews (claims : list Claim) : list Review :=
  flat_map claimReview (firstn 5 claims).

Definition running_verdict (claims : list Claim) : option string :=
  fold_left verdict_step (scanned_reviews claims) None.

Definition verdict (claims : list Claim) : option string :=
  match claims with
  | [] => None
  | _ :: _ =>
      match running_verdict claims with
      | Some v => Some v
      | None => Some "uncertain"
      end
  end.

(** The summary line of one review, "{publisher}: {rating} — {title} ({url})". *)
Definition review_line (r : Review) : string :=
  summary_line (get_default (publisher_name r) "Unknown") (rating_of r)
               (get_default (title r) "") (get_default (url r) "").

Definition summary (claims : list Claim) : list string :=
  map review_line (scanned_reviews claims).

Definition rated_fake (r : Review) : bool := any_in FAKE_WORDS (rating_of r).
Definition rated_true (r : Review) : bool := any_in TRUE_WORDS (rating_of r).

(** *** Provider failure (4.2) *)

(** The client could not be created, or the sentiment analysis failed
    with the language code and again with auto-detection. *)
Definition provider_unavailable (client : option Client) (text : string)
           (language_code : string) : bool :=
  match client with
  | None => true
  | Some c =>
      raises (analyze_sentiment c (plain_text text (Some language_code)))
      && raises (analyze_sentiment c (plain_text text None))
  end.

(** The result of the degraded path for a text whose penalty is [p]. *)
Definition fallback_result (text : string) (p : Q) : Result :=
  {| label := "uncertain";
     Model.score := 50;
     confidence := 0.3;
     features :=
       {| sensational_penalty := p;
          sentiment_magnitude := 0.0;
          entity_wiki_hits := 0;
          categories := [] |};
     insights :=
       {| key_entities := [];
          sensational_terms := firstn 10 (sensational_words text);
          notable_sentences := firstn 2 (_split_sentences text) |} |}.

(** The invariant that section 3 gives for [sensational_terms]. *)
Definition str_lt (a b : string) : Prop := String.ltb a b = true.

Definition is_lowercase_word (w : string) : bool :=
  negb (is_empty w) && (count_if char_islower w =? len w)%Z.

Definition terms_invariant (terms : list string) : Prop :=
  (List.length terms <= 10)%nat
  /\ NoDup terms
  /\ Sorted str_lt terms
  /\ Forall (fun w => is_lowercase_word w = true) terms.

End Spec.

(** ** Sample inputs *)

Module Examples.

Import Provider Model Factcheck Main.

(** The end-to-end text of section 8. *)
Definition breaking_text : string :=
  "BREAKING!!! Scientists SHOCKED by new miracle cure".

Definition sample_text : string := "Miracle cure found!  It is a scandal.".

Definition sample_sentiment : Sentiment :=
  {| magnitude := 0.5; sentiment_score := 0.1 |}.

Definition sample_entities : list Entity :=
  [ {| name := "Bob"; type_ := "PERSON"; salience := 0.2;
       metadata := [("mid", "/m/1")] |};
    {| name := "NASA"; type_ := "ORGANIZATION"; salience := 0.7;
       metadata := [("wikipedia_url", "https://en.wikipedia.org/wiki/NASA")] |};
    {| name := "bob "; type_ := "PERSON"; salience := 0.2; metadata := [] |} ].

Definition sample_categories : list Category :=
  [ {| category_name := "/News/Politics" |};
    {| category_name := "/Law & Government/politics" |} ].

Definition sample_sentences : list Sentence :=
  [ {| text_content := "Miracle cure found!  ";
       sentence_sentiment := {| magnitude := 0.3; sentiment_score := 0 |} |};
    {| text_content := "It is a scandal.";
       sentence_sentiment := {| magnitude := 0.3; sentiment_score := 0 |} |} ].

(** A provider that answers every call. *)
Definition sample_client : Client :=
  {| analyze_sentiment := fun _ =>
       Ok {| document_sentiment := sample_sentiment;
             sentences := sample_sentences |};
     analyze_entities := fun _ => Ok sample_entities;
     Provider.classify_text := fun _ => Ok sample_categories |}.


Definition sample_claims : list Claim :=
  [ {| claimReview :=
         [ {| publisher_name := Some "Snopes"; title := Some "Cure claim";
              textRating := Some "Mostly True"; url := None |};
           {| publisher_name := None; title := None;
              textRating := Some "Incorrect"; url := None |} ] |} ].

(** No provider, no fact-check service, a working store. *)
Definition offline_env : Env :=
  {| client := None;
     get_db := Ok tt;
     search_api := fun _ _ => Raise "HttpError";
     save_article := fun _ _ => Ok "article-1";
     save_verification := fun _ _ _ => Ok tt |}.

(** Every collaborator answers. *)
Definition online_env : Env :=
  {| client := Some sample_client;
     get_db := Ok tt;
     search_api := fun _ _ => Ok sample_claims;
     save_article := fun _ _ => Ok "article-1";
     save_verification := fun _ _ _ => Ok tt |}.

(** A heuristic result with score 60 and label "uncertain". *)
Definition uncertain_60 : Result :=
  {| label := "uncertain";
     score := 60;
     confidence := 0.2;
     features :=
       {| sensational_penalty := 0; sentiment_magnitude := 0;
          entity_wiki_hits := 4; categories := [] |};
     insights :=
       {| key_entities := []; sensational_terms := []; notable_sentences := [] |} |}.

End Examples.

(** ** app/config.py *)

Module Config.

(** [Settings.origins]: the entries of the comma-separated setting, trimmed,
    the blank ones dropped. *)
Definition origins (ALLOWED_ORIGINS : string) : list string :=
  map strip
      (filter (fun o => negb (is_empty (strip o))) (split "," ALLOWED_ORIGINS)).

End Config.

(** ** The cached client of app/model.py

    [_client] is wrapped in [lru_cache(maxsize=1)] and takes no argument:
    its first result is kept and returned by every later call.  [create]
    is the outcome the constructor of the client would have at the call. *)

Module ClientCache.

Import Provider.

Definition Cache : Type := option (option Client).

Definition _client (create : Res Client) (cache : Cache) : option Client * Cache :=
  match cache with
  | Some kept => (kept, cache)
  | None =>
      let result :=
        match create with
        | Ok c => Some c
        | Raise _ => None
        end in
      (result, Some result)
  end.

(** Successive calls, one constructor outcome for each. *)
Fixpoint calls (creates : list (Res Client)) (cache : Cache) : list (option Client) :=
  match creates with
  | [] => []
  | create :: rest =>
      let '(result, cache) := _client create cache in
      result :: calls rest cache
  end.

End ClientCache.

(** ** app/firebase.py *)

Module Firebase.

Section Handle.

(** The type of the Firestore client. *)
Variable Db : Type.

(** What the process sees of the machine and of the Firebase SDK. *)
Record World : Type := {
  path_exists : string -> bool;
  credentials_env : option string;
  initialize_app : string -> Res unit;
  firestore_client : Res Db
}.

(** The globals: [_DB] and whether [firebase_admin._apps] holds an app. *)
Record State : Type := {
  _DB : option Db;
  apps : bool
}.

Definition EXPLICIT_PATH : string :=
  "C:\Users\sharm\OneDrive\Desktop\verifiai\serviceAccountKey.json".

Definition init_firebase (w : World) (st : State) : Res Db * State :=
  match _DB st with
  | Some db => (Ok db, st)
  | None =>
      let cred_path :=
        if path_exists w EXPLICIT_PATH then Some EXPLICIT_PATH
        else credentials_env w in
      match cred_path with
      | None => (Raise "FileNotFoundError", st)
      | Some path =>
          if is_empty path || negb (path_exists w path)
          then (Raise "FileNotFoundError", st)
          else
            let started :=
              if apps st then Ok st
              else match initialize_app w path with
                   | Ok _ => Ok {| _DB := _DB st; apps := true |}
                   | Raise e => Raise e
                   end in
            match started with
            | Raise e => (Raise e, st)
            | Ok st =>
                match firestore_client w with
                | Ok db => (Ok db, {| _DB := Some db; apps := apps st |})
                | Raise e => (Raise e, st)
                end
            end
      end
  end.

Definition get_db (w : World) (st : State) : Res Db * State := init_firebase w st.

(** Successive calls of [get_db], each in the world of its time. *)
Fixpoint calls (worlds : list World) (st : State) : list (Res Db) :=
  match worlds with
  | [] => []
  | w :: rest =>
      let '(result, st) := get_db w st in
      result :: calls rest st
  end.

End Handle.

Arguments path_exists {Db} _ _.
Arguments credentials_env {Db} _.
Arguments initialize_app {Db} _ _.
Arguments firestore_client {Db} _.
Arguments _DB {Db} _.
Arguments apps {Db} _.
Arguments init_firebase {Db} _ _.
Arguments get_db {Db} _ _.
Arguments calls {Db} _ _.

End Firebase.

(** ** Notions used by the further properties *)

Module Notions.

Import Provider Model Factcheck Main.

(** The characters of [s] that are not whitespace, in order. *)
Fixpoint visible (s : string) : string :=
  match s with
  | EmptyString => EmptyString
  | String c s' => if char_isspace c then visible s' else String c (visible s')
  end.

(** [s] is not empty and has no whitespace at either end. *)
Definition trimmed (s : string) : Prop :=
  s <> EmptyString /\ lstrip s = s /\ rstrip s = s.

(** The record [_collect_insights] builds for one entity. *)
Definition key_entity_of (e : Entity) : KeyEntity :=
  {| ke_name := name e;
     ke_type := type_ e;
     ke_salience := salience e;
     ke_wikipedia_url := md_get "wikipedia_url" (metadata e);
     ke_mid := md_get "mid" (metadata e) |}.

(** [b] does not come before [a] in descending order of [key]. *)
Definition not_above {A : Type} (key : A -> Q) (a b : A) : Prop :=
  (key b <= key a)%Q.

(** The texts [_collect_insights] ranks: the sentences of the provider or,
    when it gave none, the first 8 sentences split from the text. *)
Definition candidate_texts (text : string) (sentences : list (string * Q))
  : list string :=
  match sentences with
  | [] => firstn 8 (_split_sentences text)
  | _ :: _ => map fst sentences
  end.

(** The strength of a verdict: none or uncertain, then true, then fake. *)
Definition verdict_rank (v : option string) : nat :=
  match v with
  | Some v => if String.eqb v "fake" then 2 else if String.eqb v "true" then 1 else 0
  | None => 0
  end.

(** What [verify] gives to the classifier: the title (the first 120
    characters of the trimmed input), a full stop, and the trimmed input. *)
Definition classifier_input (input : string) : string :=
  (take 120 (strip input) ++ ". " ++ strip input)%string.

(** The verdict and the summary [verify] gets from the fact-check search. *)
Definition fact_check (env : Env) (input : string) : option string * list string :=
  summarize_claims (fact_check_search (search_api env) (take 120 (strip input)) "en").

(** The result and the explanation of [verify] before they are stored. *)
Definition merged (env : Env) (input : string) (r : Result) (e : list string)
  : Result * list string :=
  merge_verdict r e (fst (fact_check env input)) (snd (fact_check env input)).

(** [s] has no occurrence of the character [c]. *)
Definition free_of (c : ascii) (s : string) : Prop := count_char c s = 0%Z.

(** The bonus of a shouted sentence: 0.8 for an exclamation mark and 0.8
    for a capitals ratio above 0.12. *)
Definition bonus_of (s : string) : Q :=
  ((if (1 <=? count_char "!" s)%Z then 0.8 else 0.0)
   + (if float_lt 0.12 (Spec.caps_ratio s) then 0.8 else 0.0))%Q.

(** The relevance of a sentence of the provider. *)
Definition relevance (sm : string * Q) : Q := (snd sm + bonus_of (fst sm))%Q.

(** Does the text [s], read after a character that was ([e]) or was not a
    sentence end, finish on a sentence end. *)
Fixpoint last_is_end (e : bool) (s : string) : bool :=
  match s with
  | EmptyString => e
  | String c s' => last_is_end (is_sentence_end c) s'
  end.

Definition ends_sentence (s : string) : bool := last_is_end false s.

(** Every element but the last ends a sentence. *)
Fixpoint all_but_last_end (l : list string) : Prop :=
  match l with
  | [] => True
  | s :: rest => (rest <> [] -> ends_sentence s = true) /\ all_but_last_end rest
  end.

(** What the scanner of sentences returns, from the state [st], on a text
    [s] without trailing whitespace: the piece in progress [p] and the
    pieces after it [ps]. *)
Definition pieces_trimmed (st : split_state) (s p : string) (ps : list string) : Prop :=
  Forall trimmed ps
  /\ match st with
     | InSeparator => s <> EmptyString -> trimmed p
     | AfterChar e =>
         rstrip p = p
         /\ (p = EmptyString -> s = EmptyString \/ e = true)
         /\ (forall c s', s = String c s' -> char_isspace c = false ->
                          p <> EmptyString /\ lstrip p = p)
     end.

End Notions.

(** ** Further sample inputs *)

Module Samples.

Import Provider Model Factcheck Main.

Definition grounded_entity : Entity :=
  {| name := "NASA"; type_ := "ORGANIZATION"; salience := 0.04;
     metadata := [("mid", "/m/05f4p")] |}.

(** Twenty-five grounded entities. *)
Definition many_entities : list Entity := repeat grounded_entity 25.


(** A machine without any credentials file, and one that has the file named
    by the environment and a working SDK. *)
Definition bare_world : Firebase.World string :=
  {| Firebase.path_exists := fun _ => false;
     Firebase.credentials_env := None;
     Firebase.initialize_app := fun _ => Ok tt;
     Firebase.firestore_client := Ok "firestore" |}.

Definition ready_world : Firebase.World string :=
  {| Firebase.path_exists := fun p => String.eqb p "/run/key.json";
     Firebase.credentials_env := Some "/run/key.json";
     Firebase.initialize_app := fun _ => Ok tt;
     Firebase.firestore_client := Ok "firestore" |}.

Definition fresh_state : Firebase.State string :=
  {| Firebase._DB := None; Firebase.apps := false |}.

(** A text of 20000 characters. *)
Fixpoint replicate (n : nat) (c : ascii) : string :=
  match n with
  | O => EmptyString
  | S n' => String c (replicate n' c)
  end.

Definition long_text : string := replicate (Z.to_nat 20000) "a".

End Samples.

(** * Properties *)

Import Provider Model Factcheck Main.

Section Numbers.

Lemma float_lt_true (a b : Q) : float_lt a b = true <-> (a < b)%Q.
Proof.
  unfold float_lt. destruct (Qlt_le_dec a b) as [H | H]; split; intro K;
    try reflexivity; try assumption; try discriminate.
  exfalso. apply (Qlt_not_le _ _ K H).
Qed.

Lemma float_lt_false (a b : Q) : float_lt a b = false <-> (b <= a)%Q.
Proof.
  unfold float_lt. destruct (Qlt_le_dec a b) as [H | H]; split; intro K;
    try reflexivity; try assumption; try discriminate.
  exfalso. apply (Qlt_not_le _ _ H K).
Qed.

Lemma fmin_Qmin (a b : Q) : (fmin a b == Qmin a b)%Q.
Proof.
  unfold fmin. destruct (float_lt b a) eqn:E.
  - apply float_lt_true in E. symmetry. apply Q.min_r. apply Qlt_le_weak, E.
  - apply float_lt_false in E. symmetry. apply Q.min_l, E.
Qed.

Lemma fmin_le_l (a b : Q) : (fmin a b <= a)%Q.
Proof. rewrite fmin_Qmin. apply Q.le_min_l. Qed.

Lemma fmin_glb (a b c : Q) : (c <= a)%Q -> (c <= b)%Q -> (c <= fmin a b)%Q.
Proof. intros. rewrite fmin_Qmin. apply Q.min_glb; assumption. Qed.

Lemma truediv_max1 (a n : Z) :
  truediv a (Z.max 1 n) = Ok (inject_Z a / inject_Z (Z.max 1 n))%Q.
Proof.
  unfold truediv. destruct (Z.eqb_spec (Z.max 1 n) 0) as [E | E]; [lia | reflexivity].
Qed.

#[local] Instance round_half_even_compat : Proper (Qeq ==> eq) round_half_even.
Proof.
  intros x y E. unfold round_half_even.
  rewrite (Qfloor_comp x y E).
  assert (K : (x - inject_Z (Qfloor y) ?= 1 # 2)%Q = (y - inject_Z (Qfloor y) ?= 1 # 2)%Q).
  { apply Qcompare_comp; [rewrite E | ]; reflexivity. }
  rewrite K. reflexivity.
Qed.

Lemma round_half_even_cases (x : Q) :
  round_half_even x = Qfloor x \/ round_half_even x = (Qfloor x + 1)%Z.
Proof.
  unfold round_half_even.
  destruct (x - inject_Z (Qfloor x) ?= 1 # 2)%Q; auto.
  destruct (Z.even (Qfloor x)); auto.
Qed.

Lemma round_half_even_Z (n : Z) : round_half_even (inject_Z n) = n.
Proof.
  unfold round_half_even. rewrite Qfloor_Z.
  assert (K : (inject_Z n - inject_Z n ?= 1 # 2)%Q = Lt).
  { rewrite <- Qlt_alt. lra. }
  rewrite K. reflexivity.
Qed.

Lemma round_half_even_lower (x : Q) (n : Z) :
  (inject_Z n <= x)%Q -> (n <= round_half_even x)%Z.
Proof.
  intro H. apply Qfloor_resp_le in H. rewrite Qfloor_Z in H.
  destruct (round_half_even_cases x) as [E | E]; rewrite E; lia.
Qed.

Lemma round_half_even_upper (x : Q) (n : Z) :
  (x <= inject_Z n)%Q -> (round_half_even x <= n)%Z.
Proof.
  intro H. destruct (Qle_lt_or_eq _ _ H) as [L | E].
  - assert (F : (Qfloor x < n)%Z).
    { rewrite Zlt_Qlt. apply Qle_lt_trans with x; [apply Qfloor_le | exact L]. }
    destruct (round_half_even_cases x) as [R | R]; rewrite R; lia.
  - rewrite E, round_half_even_Z. lia.
Qed.

Lemma round_half_even_nearest (x : Q) : Spec.nearest_integer x (round_half_even x).
Proof.
  unfold Spec.nearest_integer, round_half_even.
  pose proof (Qfloor_le x) as Lo. pose proof (Qlt_floor x) as Hi.
  rewrite inject_Z_plus in Hi. change (inject_Z 1) with 1%Q in Hi.
  destruct (x - inject_Z (Qfloor x) ?= 1 # 2)%Q eqn:C.
  - apply Qeq_alt in C.
    destruct (Z.even (Qfloor x)); [ | rewrite inject_Z_plus; change (inject_Z 1) with 1%Q];
      split; lra.
  - apply Qlt_alt in C. split; lra.
  - apply Qgt_alt in C. rewrite inject_Z_plus. change (inject_Z 1) with 1%Q. split; lra.
Qed.

Lemma round_clamp (x : Q) :
  round_half_even (Spec.clamp 0 100 x) = Z.max 0 (Z.min 100 (round_half_even x)).
Proof.
  unfold Spec.clamp.
  destruct (Qlt_le_dec x 0) as [Lo | Lo].
  - assert (E : (Qmax 0 (Qmin 100 x) == inject_Z 0)%Q).
    { rewrite Q.max_l; [reflexivity | ]. rewrite Q.min_r; lra. }
    rewrite E, round_half_even_Z.
    assert (round_half_even x <= 0)%Z by (apply round_half_even_upper; apply Qlt_le_weak; exact Lo).
    lia.
  - destruct (Qlt_le_dec 100 x) as [Hi | Hi].
    + assert (E : (Qmax 0 (Qmin 100 x) == inject_Z 100)%Q).
      { rewrite Q.min_l by lra. rewrite Q.max_r; [reflexivity | lra]. }
      rewrite E, round_half_even_Z.
      assert (100 <= round_half_even x)%Z.
      { apply round_half_even_lower. change (inject_Z 100) with 100%Q. lra. }
      lia.
    + assert (E : (Qmax 0 (Qmin 100 x) == x)%Q).
      { rewrite Q.min_r by lra. rewrite Q.max_r; [reflexivity | lra]. }
      rewrite E.
      assert (0 <= round_half_even x)%Z by (apply round_half_even_lower; exact Lo).
      assert (round_half_even x <= 100)%Z.
      { apply round_half_even_upper. change (inject_Z 100) with 100%Q. lra. }
      lia.
Qed.


Lemma Qmin_eq_r (a b c : Q) : (b == c)%Q -> (Qmin a b == Qmin a c)%Q.
Proof. intro E. apply Q.min_compat; [reflexivity | exact E]. Qed.

Lemma hits_nonneg (n : nat) : (0 <= inject_Z (Z.of_nat n) * 0.05)%Q.
Proof.
  apply Qmult_le_0_compat; [ | lra].
  change 0%Q with (inject_Z 0). rewrite <- Zle_Qle. lia.
Qed.

End Numbers.

Lemma text_red_flags_value (text : string) :
  exists p : Q,
    _text_red_flags text = Ok p
    /\ (p == Spec.penalty (Spec.caps_ratio text) (Spec.exclam_count text)
                          (Spec.sensational_hits text))%Q
    /\ (0 <= p)%Q /\ (p <= 0.6)%Q.
Proof.
  unfold _text_red_flags. rewrite truediv_max1. cbn [bind].
  eexists. split; [reflexivity | ].
  unfold Spec.penalty, Spec.exclam_count, Spec.sensational_hits.
  fold (Spec.caps_ratio text).
  set (r := Spec.caps_ratio text).
  set (e := count_char "!" text).
  pose proof (hits_nonneg (List.length (sensational_words text))) as Hh.
  set (h := (inject_Z (Z.of_nat (List.length (sensational_words text))) * 0.05)%Q) in *.
  assert (Hm : (0 <= fmin 0.25 h)%Q) by (apply fmin_glb; [lra | exact Hh]).
  split; [ | split].
  - rewrite !fmin_Qmin. unfold float_lt.
    destruct (Qlt_le_dec 0.12 r); destruct (3 <=? e)%Z;
      apply Qmin_eq_r; set (m := Qmin 0.25 h); lra.
  - apply fmin_glb; [lra | ].
    unfold float_lt.
    destruct (Qlt_le_dec 0.12 r); destruct (3 <=? e)%Z; lra.
  - apply fmin_le_l.
Qed.


Section Scorer.

Lemma prefix_lower (pat s : string) :
  String.prefix (lower pat) (lower s) = Spec.ci_prefix pat s.
Proof.
  revert s. induction pat as [ | a pat IH]; intros [ | b s]; cbn; try reflexivity.
  destruct (ascii_dec (char_lower a) (char_lower b)) as [E | E].
  - rewrite E, Ascii.eqb_refl. apply IH.
  - apply Ascii.eqb_neq in E. rewrite E. reflexivity.
Qed.

Lemma contains_lower (pat s : string) :
  contains (lower pat) (lower s) = Spec.ci_contains pat s.
Proof.
  induction s as [ | b s IH].
  - cbn [lower contains Spec.ci_contains].
    rewrite <- (prefix_lower pat ""). reflexivity.
  - cbn [contains Spec.ci_contains]. rewrite <- IH, <- prefix_lower. reflexivity.
Qed.

Lemma category_hit_lower (s : string) :
  category_hit (lower s)
  = Spec.ci_contains "news" s || Spec.ci_contains "law & government" s
    || Spec.ci_contains "business" s.
Proof.
  unfold category_hit. rewrite <- !contains_lower. reflexivity.
Qed.

Lemma category_bonus_code (cats : list Category) :
  (match cats with
   | [] => 50.0
   | _ :: _ =>
       if existsb category_hit (map (fun c => lower (category_name c)) cats)
       then 50.0 + 5 else 50.0
   end == 50 + Spec.category_bonus cats)%Q.
Proof.
  unfold Spec.category_bonus.
  assert (E : existsb category_hit (map (fun c => lower (category_name c)) cats)
              = existsb (fun c => Spec.ci_contains "news" (category_name c)
                                  || Spec.ci_contains "law & government" (category_name c)
                                  || Spec.ci_contains "business" (category_name c)) cats).
  { induction cats as [ | c cats IH]; [reflexivity | ].
    cbn [map existsb]. rewrite IH, category_hit_lower. reflexivity. }
  destruct cats as [ | c cats]; [cbn; lra | ].
  rewrite E. destruct (existsb _ (c :: cats)); lra.
Qed.

Lemma entity_fold (l : list Entity) (acc : Q) :
  (fold_left (fun score e => if grounded e then score + 0.03 else score) l acc
   == acc + 0.03 * inject_Z (Z.of_nat (List.length (filter grounded l))))%Q.
Proof.
  revert acc. induction l as [ | e l IH]; intro acc.
  - cbn [fold_left filter List.length]. change (inject_Z (Z.of_nat 0)) with 0%Q. lra.
  - cbn [fold_left filter]. rewrite IH. destruct (grounded e).
    + cbn [List.length]. rewrite Nat2Z.inj_succ, <- Z.add_1_r, inject_Z_plus.
      change (inject_Z 1) with 1%Q. lra.
    + reflexivity.
Qed.

Lemma entity_quality_spec (entities : list Entity) :
  (_entity_quality entities == Spec.entity_quality_bonus entities)%Q.
Proof.
  unfold _entity_quality, Spec.entity_quality_bonus, Spec.grounded_count.
  rewrite fmin_Qmin. apply Qmin_eq_r. rewrite entity_fold. lra.
Qed.

Lemma truthy_false (s : Sentiment) : truthy s = false -> (magnitude s == 0)%Q.
Proof.
  unfold truthy. intro H. apply negb_false_iff, andb_true_iff in H.
  apply Qeq_bool_eq, (proj1 H).
Qed.

Lemma sentiment_term (s : Sentiment) (x : Q) :
  ((if truthy s then x - fmin 20.0 (magnitude s * 3.0) else x)
   == x - Qmin 20 (magnitude s * 3))%Q.
Proof.
  destruct (truthy s) eqn:T.
  - rewrite fmin_Qmin.
    assert (E : (Qmin 20.0 (magnitude s * 3.0) == Qmin 20 (magnitude s * 3))%Q).
    { apply Q.min_compat; lra. }
    rewrite E. reflexivity.
  - apply truthy_false in T.
    assert (E : (Qmin 20 (magnitude s * 3) == 0)%Q).
    { rewrite Q.min_r; lra. }
    rewrite E. lra.
Qed.

End Scorer.

Section Classifier.

Lemma for_each_total {A S : Type} (body : S -> A -> Res S) :
  (forall acc x, exists acc', body acc x = Ok acc') ->
  forall l acc, exists r, for_each body l acc = Ok r.
Proof.
  intros Hb l. induction l as [ | x l IH]; intro acc.
  - exists acc. reflexivity.
  - destruct (Hb acc x) as [acc' E]. cbn [for_each]. rewrite E. cbn [bind]. apply IH.
Qed.

Lemma shout_bonus_total (s : string) : exists b, shout_bonus s = Ok b.
Proof.
  unfold shout_bonus. rewrite truediv_max1. cbn [bind]. eexists. reflexivity.
Qed.

Lemma firstn_length_le {A : Type} (n : nat) (l : list A) :
  (List.length (firstn n l) <= n)%nat.
Proof. rewrite length_firstn. lia. Qed.

Lemma collect_insights_total (text : string) (sentences : list (string * Q))
      (entities : list Entity) :
  exists i,
    _collect_insights text sentences entities = Ok i
    /\ sensational_terms i
       = firstn 10 (sorted_str (fromkeys (sensational_words text)))
    /\ (List.length (key_entities i) <= 8)%nat
    /\ (List.length (notable_sentences i) <= 3)%nat.
Proof.
  unfold _collect_insights.
  match goal with
  | |- context [for_each ?b sentences []] =>
      destruct (for_each_total b) with (l := sentences) (acc := @nil (Q * string))
        as [c1 E1]
  end.
  { intros acc [s mag]. destruct (shout_bonus_total s) as [b E]. rewrite E.
    cbn [bind]. eexists. reflexivity. }
  rewrite E1. cbn [bind].
  assert (E2 : exists c2,
             match c1 with
             | [] => for_each (fun candidates s =>
                                 bonus <- shout_bonus s ;;
                                 Ok (candidates ++ [(bonus, strip s)]))
                              (firstn 8 (_split_sentences text)) c1
             | _ :: _ => Ok c1
             end = Ok c2).
  { destruct c1 as [ | c c1].
    - apply for_each_total. intros acc s.
      destruct (shout_bonus_total s) as [b E]. rewrite E. cbn [bind].
      eexists. reflexivity.
    - eexists. reflexivity. }
  destruct E2 as [c2 E2]. rewrite E2. cbn [bind].
  eexists. split; [reflexivity | ].
  cbn [sensational_terms key_entities notable_sentences].
  split; [reflexivity | ]. split.
  - rewrite length_map. apply firstn_length_le.
  - eapply Nat.le_trans; [apply filter_length_le | ].
    rewrite length_map. apply firstn_length_le.
Qed.

Lemma score_refines (cats : list Category) (ents : list Entity)
      (s : Sentiment) (p : Q) :
  Z.max 0 (Z.min 100 (round_half_even
    ((if truthy s
      then match cats with
           | [] => 50.0
           | _ :: _ =>
               if existsb category_hit (map (fun c => lower (category_name c)) cats)
               then 50.0 + 5 else 50.0
           end + _entity_quality ents * 100 - fmin 20.0 (magnitude s * 3.0)
      else match cats with
           | [] => 50.0
           | _ :: _ =>
               if existsb category_hit (map (fun c => lower (category_name c)) cats)
               then 50.0 + 5 else 50.0
           end + _entity_quality ents * 100) - p * 100)%Q))
  = Spec.score cats ents (magnitude s) p.
Proof.
  unfold Spec.score. rewrite round_clamp. do 2 f_equal.
  apply round_half_even_compat. unfold Spec.raw_score.
  rewrite sentiment_term, category_bonus_code, entity_quality_spec. lra.
Qed.

Lemma classify_text_analyzed (client : option Client) (text lang : string)
      (s : Sentiment) (sents : list (string * Q)) (ents : list Entity)
      (cats : list Category) :
  _analyze client text lang = Ok (Analyzed s sents ents cats) ->
  exists p i,
    _text_red_flags text = Ok p
    /\ _collect_insights text sents ents = Ok i
    /\ Model.classify_text client text lang
       = Ok {| label := label_of (Spec.score cats ents (magnitude s) p);
               score := Spec.score cats ents (magnitude s) p;
               confidence := Spec.confidence_of (Spec.score cats ents (magnitude s) p);
               features :=
                 {| sensational_penalty := round_digits p 3;
                    sentiment_magnitude := if truthy s then magnitude s else 0.0;
                    entity_wiki_hits := Z.min 25 (Spec.grounded_count ents);
                    categories := firstn 5 (map category_name cats) |};
               insights := i |}.
Proof.
  intro H.
  destruct (text_red_flags_value text) as [p [Hp _]].
  destruct (collect_insights_total text sents ents) as [i [Hi _]].
  exists p, i. split; [exact Hp | ]. split; [exact Hi | ].
  unfold Model.classify_text. rewrite H. cbn [bind]. rewrite Hp. cbn [bind].
  rewrite <- score_refines.
  unfold truediv. change (50 =? 0)%Z with false. cbv iota. cbn [bind].
  rewrite Hi. cbn [bind].
  destruct (truthy s); reflexivity.
Qed.

End Classifier.



Lemma analyze_degraded_iff (client : option Client) (text lang : string) :
  _analyze client text lang = Ok Degraded
  <-> Spec.provider_unavailable client text lang = true.
Proof.
  unfold _analyze, Spec.provider_unavailable.
  destruct client as [c | ]; [ | split; reflexivity].
  destruct (analyze_sentiment c (plain_text text (Some lang))) as [r1 | e1].
  - cbn [raises andb]. split; [ | discriminate].
    destruct (analyze_entities c (plain_text text None)); cbn [bind]; discriminate.
  - cbn [raises andb].
    destruct (analyze_sentiment c (plain_text text None)) as [r2 | e2].
    + cbn [raises]. split; [ | discriminate].
      destruct (analyze_entities c (plain_text text None)); cbn [bind]; discriminate.
    + split; reflexivity.
Qed.

Lemma classify_text_degraded (client : option Client) (text lang : string) :
  Spec.provider_unavailable client text lang = true ->
  exists p,
    _text_red_flags text = Ok p
    /\ Model.classify_text client text lang = Ok (Spec.fallback_result text p).
Proof.
  intro H. apply analyze_degraded_iff in H.
  destruct (text_red_flags_value text) as [p [Hp _]].
  exists p. split; [exact Hp | ].
  unfold Model.classify_text. rewrite H. cbn [bind]. rewrite Hp. reflexivity.
Qed.

(** A failure of the entity analysis alone, after the sentiment analysis
    succeeded, is not absorbed: it reaches the caller. *)
Remark analyze_entities_failure_propagates (c : Client) (text lang : string)
       (sresp : SentimentResponse) (exn : string) :
  analyze_sentiment c (plain_text text (Some lang)) = Ok sresp ->
  analyze_entities c (plain_text text None) = Raise exn ->
  Model.classify_text (Some c) text lang = Raise exn.
Proof.
  intros S E. unfold Model.classify_text, _analyze. rewrite S, E. reflexivity.
Qed.



Section Merger.

Lemma overrides_some (fc : option string) (v : string) :
  overrides fc = Some v <-> fc = Some v /\ (v = "true" \/ v = "fake").
Proof.
  unfold overrides. destruct fc as [w | ]; [ | split; [discriminate | intros [K _]; discriminate]].
  unfold mem. cbn [existsb]. split.
  - destruct (is_empty w); cbn [negb andb]; [discriminate | ].
    destruct (String.eqb_spec w "true") as [E1 | E1];
      [ | destruct (String.eqb_spec w "fake") as [E2 | E2]]; cbn [orb];
      intro K; inversion K; subst; auto.
  - intros [K [E | E]]; inversion K; subst; reflexivity.
Qed.

Lemma overrides_none (fc : option string) :
  overrides fc = None <-> fc <> Some "true" /\ fc <> Some "fake".
Proof.
  split.
  - intro H. split; intro K; subst fc; discriminate H.
  - intros [H1 H2]. destruct (overrides fc) as [v | ] eqn:E; [ | reflexivity].
    apply overrides_some in E. destruct E as [E [K | K]]; subst; contradiction.
Qed.

Lemma nonempty_firstn_app (e s : list string) :
  (if nonempty s then e ++ firstn 3 s else e) = e ++ firstn 3 s.
Proof. destruct s; [rewrite firstn_nil, app_nil_r | ]; reflexivity. Qed.

Lemma merge_verdict_eq (r : Result) (e : list string) (fc : option string)
      (s : list string) :
  merge_verdict r e fc s
  = match overrides fc with
    | Some v => (set_verdict r v, verdict_line v :: e ++ firstn 3 s)
    | None => (r, e ++ firstn 3 s)
    end.
Proof.
  unfold merge_verdict. destruct (overrides fc); rewrite nonempty_firstn_app; reflexivity.
Qed.

End Merger.

(** C3. A fact-check verdict true or fake overwrites the label with the
    verdict, the score with 85 or 15 and the confidence with 0.9, and puts
    the verdict line at position 0 of the explanation; any other verdict
    leaves the result as it is; in both cases the first 3 summary lines, and
    no more, are appended at the end of the explanation. *)
Theorem merge_verdict_override (result : Result) (explanation : list string)
        (fc_verdict : option string) (fc_summary : list string) :
  (forall v, fc_verdict = Some v -> v = "true" \/ v = "fake" ->
     let '(merged, lines) := merge_verdict result explanation fc_verdict fc_summary in
     label merged = v
     /\ score merged = (if String.eqb v "true" then 85 else 15)%Z
     /\ confidence merged = 0.9%Q
     /\ nth_error lines 0 = Some ("Fact Check verdict: " ++ v)%string
     /\ lines = ("Fact Check verdict: " ++ v)%string :: explanation ++ firstn 3 fc_summary)
  /\ (fc_verdict <> Some "true" -> fc_verdict <> Some "fake" ->
      merge_verdict result explanation fc_verdict fc_summary
      = (result, explanation ++ firstn 3 fc_summary))
  /\ (List.length (firstn 3 fc_summary) <= 3)%nat.
Proof.
  rewrite merge_verdict_eq. split; [ | split].
  - intros v E K.
    assert (O : overrides fc_verdict = Some v) by (apply overrides_some; auto).
    rewrite O. cbn [set_verdict label score confidence nth_error].
    repeat split; reflexivity.
  - intros H1 H2.
    assert (O : overrides fc_verdict = None) by (apply overrides_none; auto).
    rewrite O. reflexivity.
  - apply firstn_length_le.
Qed.

Lemma merge_verdict_override_witness :
  (let '(merged, lines) :=
     merge_verdict Examples.uncertain_60
                   ["Grounded entities found: 4 linked to Wikipedia/Knowledge Graph"]
                   (Some "fake") ["a"; "b"; "c"; "d"] in
   label merged = "fake"
   /\ score merged = 15%Z
   /\ confidence merged = 0.9%Q
   /\ nth_error lines 0 = Some "Fact Check verdict: fake"
   /\ lines = ["Fact Check verdict: fake";
               "Grounded entities found: 4 linked to Wikipedia/Knowledge Graph";
               "a"; "b"; "c"])
  /\ merge_verdict Examples.uncertain_60 [] (Some "uncertain") ["a"]
     = (Examples.uncertain_60, ["a"]).
Proof.
  split.
  - exact (proj1 (merge_verdict_override
                    Examples.uncertain_60
                    ["Grounded entities found: 4 linked to Wikipedia/Knowledge Graph"]
                    (Some "fake") ["a"; "b"; "c"; "d"])
                 "fake" eq_refl (or_intror eq_refl)).
  - apply (proj1 (proj2 (merge_verdict_override Examples.uncertain_60 []
                                                (Some "uncertain") ["a"])));
      discriminate.
Defined.

Section Consistency.

Lemma label_of_consistent (sc : Z) :
  (label_of sc = "true" <-> (70 <= sc)%Z)
  /\ (label_of sc = "fake" <-> (sc <= 30)%Z)
  /\ (label_of sc = "uncertain" <-> (30 < sc < 70)%Z).
Proof.
  unfold label_of.
  destruct (Z.leb_spec 70 sc); [ | destruct (Z.leb_spec sc 30)];
    repeat split; intros; try discriminate; try lia; reflexivity.
Qed.

Lemma confidence_of_exact (sc : Z) :
  (Spec.confidence_of sc == inject_Z (Z.abs (sc - 50)) / 50)%Q.
Proof.
  unfold Spec.confidence_of, round_digits.
  change (10 ^ Z.of_nat 2)%Z with 100%Z.
  assert (E : (inject_Z (Z.abs (sc - 50)) / inject_Z 50 * inject_Z 100
               == inject_Z (2 * Z.abs (sc - 50)))%Q).
  { rewrite inject_Z_mult. change (inject_Z 50) with 50%Q.
    change (inject_Z 100) with 100%Q. change (inject_Z 2) with 2%Q. field. }
  rewrite (round_half_even_compat _ _ E), round_half_even_Z, inject_Z_mult.
  change (inject_Z 100) with 100%Q. change (inject_Z 2) with 2%Q. field.
Qed.

Lemma set_verdict_consistent (r : Result) (v : string) :
  v = "true" \/ v = "fake" -> Spec.label_consistent (set_verdict r v).
Proof.
  unfold Spec.label_consistent.
  intros [E | E]; subst v; cbn [set_verdict label score String.eqb Ascii.eqb Bool.eqb];
    repeat split; intros; try discriminate; try lia; reflexivity.
Qed.

End Consistency.

(** C4, as stated, fails: on the degraded path the score is 50 and the
    confidence is 0.3, not round(|50 - 50| / 50, 2) = 0. *)
Lemma fallback_confidence_counterexample :
  ~ (forall (client : option Client) (text lang : string) (r : Result),
        Model.classify_text client text lang = Ok r -> Spec.consistent r).
Proof.
  intro H. destruct (H None "" "en" _ eq_refl) as [_ K].
  vm_compute in K. discriminate K.
Qed.

(** C4, amended. On every path the label agrees with the score under the
    thresholds 70 and 30.  The confidence is round(|score - 50| / 50, 2) on
    the analysed path only; the degraded path returns the score 50 with the
    confidence 0.3, and a verdict override sets the score 85 or 15 with the
    confidence 0.9; without an override the merger returns the result
    unchanged. *)
Theorem result_consistency (client : option Client) (text lang : string) (r : Result) :
  Model.classify_text client text lang = Ok r ->
  Spec.label_consistent r
  /\ (Spec.provider_unavailable client text lang = false ->
      confidence r = Spec.confidence_of (score r)
      /\ (0 <= score r <= 100)%Z)
  /\ (Spec.provider_unavailable client text lang = true ->
      score r = 50%Z /\ confidence r = 0.3%Q)
  /\ (forall (explanation : list string) (fc_verdict : option string)
             (fc_summary : list string),
        let merged := fst (merge_verdict r explanation fc_verdict fc_summary) in
        Spec.label_consistent merged
        /\ match overrides fc_verdict with
           | Some v => score merged = (if String.eqb v "true" then 85 else 15)%Z
                       /\ confidence merged = 0.9%Q
           | None => merged = r
           end).
Proof.
  intro H.
  assert (L : Spec.label_consistent r
              /\ (Spec.provider_unavailable client text lang = false ->
                  confidence r = Spec.confidence_of (score r)
                  /\ (0 <= score r <= 100)%Z)
              /\ (Spec.provider_unavailable client text lang = true ->
                  score r = 50%Z /\ confidence r = 0.3%Q)).
  { destruct (Spec.provider_unavailable client text lang) eqn:U.
    - destruct (classify_text_degraded _ _ _ U) as [p [_ Hr]].
      rewrite Hr in H. injection H as H. subst r.
      split; [ | split; [discriminate | intros _; split; reflexivity]].
      unfold Spec.label_consistent. cbn [Spec.fallback_result label score].
      repeat split; intros; try discriminate; try lia; reflexivity.
    - destruct (_analyze client text lang) as [[ | s sents ents cats] | e] eqn:A.
      + apply analyze_degraded_iff in A. congruence.
      + destruct (classify_text_analyzed _ _ _ _ _ _ _ A) as [p [i [_ [_ Hr]]]].
        assert (B : (0 <= Spec.score cats ents (magnitude s) p <= 100)%Z).
        { unfold Spec.score. rewrite round_clamp. lia. }
        revert Hr B. generalize (Spec.score cats ents (magnitude s) p). intros sc Hr B.
        rewrite Hr in H. injection H as H. subst r.
        unfold Spec.label_consistent. cbn [label score confidence].
        split; [exact (label_of_consistent sc) | ].
        split; [ | discriminate]. intros _. split; [reflexivity | exact B].
      + unfold Model.classify_text in H. rewrite A in H. discriminate H. }
  destruct L as [L1 [L2 L3]].
  split; [exact L1 | split; [exact L2 | split; [exact L3 | ]]].
  intros explanation fc_verdict fc_summary. rewrite merge_verdict_eq.
  destruct (overrides fc_verdict) as [v | ] eqn:O; cbn [fst].
  - apply overrides_some in O. destruct O as [_ O].
    split; [apply set_verdict_consistent, O | split; reflexivity].
  - split; [exact L1 | reflexivity].
Qed.

Lemma result_consistency_witness :
  exists r,
    Model.classify_text (Some Examples.sample_client) Examples.sample_text "en" = Ok r
    /\ Spec.label_consistent r
    /\ (Spec.provider_unavailable (Some Examples.sample_client) Examples.sample_text "en"
        = false ->
        confidence r = Spec.confidence_of (score r) /\ (0 <= score r <= 100)%Z)
    /\ (Spec.provider_unavailable (Some Examples.sample_client) Examples.sample_text "en"
        = true ->
        score r = 50%Z /\ confidence r = 0.3%Q)
    /\ (forall (explanation : list string) (fc_verdict : option string)
               (fc_summary : list string),
          let merged := fst (merge_verdict r explanation fc_verdict fc_summary) in
          Spec.label_consistent merged
          /\ match overrides fc_verdict with
             | Some v => score merged = (if String.eqb v "true" then 85 else 15)%Z
                         /\ confidence merged = 0.9%Q
             | None => merged = r
             end).
Proof.
  eexists. split; [reflexivity | ].
  exact (result_consistency (Some Examples.sample_client) Examples.sample_text "en" _
                            eq_refl).
Defined.

(** C10. The verdict merger leaves the features and the insights of the
    result untouched, and [verify] returns those the classifier produced. *)
Theorem verdict_merge_frame (env : Env) (input : string) (out : VerifyOut) :
  verify env input = Ok out ->
  exists r e,
    heuristic env (strip input) = Ok (r, e)
    /\ out_features out = features r
    /\ out_insights out = insights r
    /\ (forall (explanation : list string) (fc_verdict : option string)
               (fc_summary : list string),
          features (fst (merge_verdict r explanation fc_verdict fc_summary)) = features r
          /\ insights (fst (merge_verdict r explanation fc_verdict fc_summary))
             = insights r).
Proof.
  assert (F : forall r explanation fc_verdict fc_summary,
             features (fst (merge_verdict r explanation fc_verdict fc_summary)) = features r
             /\ insights (fst (merge_verdict r explanation fc_verdict fc_summary))
                = insights r).
  { intros. rewrite merge_verdict_eq. destruct (overrides fc_verdict); split; reflexivity. }
  unfold verify. intro H.
  destruct (get_db env) as [db | e0]; [cbn [bind] in H | discriminate H].
  destruct (heuristic env (strip input)) as [[r e] | e1]; [cbn [bind] in H | discriminate H].
  exists r, e. split; [reflexivity | ].
  destruct (summarize_claims _) as [fc_verdict fc_summary].
  pose proof (F r e fc_verdict fc_summary) as [F1 F2].
  destruct (merge_verdict r e fc_verdict fc_summary) as [r' e']. cbn [fst] in F1, F2.
  destruct (save_article env _ _) as [id | e2];
    [destruct (save_verification env _ _ _) as [u | e3] | ];
    injection H as H; subst out; cbn [out_features out_insights];
    (split; [exact F1 | split; [exact F2 | exact (F r)]]).
Qed.

Lemma verdict_merge_frame_witness :
  exists out,
    verify Examples.online_env Examples.sample_text = Ok out
    /\ exists r e,
         heuristic Examples.online_env (strip Examples.sample_text) = Ok (r, e)
         /\ out_features out = features r
         /\ out_insights out = insights r
         /\ (forall (explanation : list string) (fc_verdict : option string)
                    (fc_summary : list string),
               features (fst (merge_verdict r explanation fc_verdict fc_summary))
               = features r
               /\ insights (fst (merge_verdict r explanation fc_verdict fc_summary))
                  = insights r).
Proof.
  eexists. split; [reflexivity | ].
  exact (verdict_merge_frame Examples.online_env Examples.sample_text _ eq_refl).
Defined.

Section ClaimSummary.

Lemma verdict_step_value (v : option string) (r : Review) :
  Spec.verdict_value v -> Spec.verdict_value (Spec.verdict_step v r).
Proof.
  unfold Spec.verdict_value, Spec.verdict_step. intro H.
  destruct (any_in FAKE_WORDS (Spec.rating_of r)); [auto | ].
  destruct (any_in TRUE_WORDS (Spec.rating_of r)); [ | exact H].
  destruct H as [H | [H | H]]; subst v; auto.
Qed.

Lemma review_step_spec (v : option string) (summary : list string) (r : Review) :
  Spec.verdict_value v ->
  review_step (v, summary) r
  = (Spec.verdict_step v r, summary ++ [Spec.review_line r]).
Proof.
  intro H. unfold review_step, Spec.verdict_step, Spec.review_line.
  fold (Spec.rating_of r).
  destruct (any_in FAKE_WORDS (Spec.rating_of r));
    destruct (any_in TRUE_WORDS (Spec.rating_of r)); try reflexivity.
  destruct H as [H | [H | H]]; subst v; reflexivity.
Qed.

Lemma fold_verdict_value (rs : list Review) (v : option string) :
  Spec.verdict_value v -> Spec.verdict_value (fold_left Spec.verdict_step rs v).
Proof.
  revert v. induction rs as [ | r rs IH]; intros v H; [exact H | ].
  cbn [fold_left]. apply IH, verdict_step_value, H.
Qed.

Lemma reviews_fold (rs : list Review) (v : option string) (summary : list string) :
  Spec.verdict_value v ->
  fold_left review_step rs (v, summary)
  = (fold_left Spec.verdict_step rs v, summary ++ map Spec.review_line rs).
Proof.
  revert v summary. induction rs as [ | r rs IH]; intros v summary H.
  - cbn. rewrite app_nil_r. reflexivity.
  - cbn [fold_left map]. rewrite review_step_spec by exact H.
    rewrite IH by (apply verdict_step_value, H).
    rewrite <- app_assoc. reflexivity.
Qed.

Lemma claims_fold (cs : list Claim) (v : option string) (summary : list string) :
  Spec.verdict_value v ->
  fold_left claim_step cs (v, summary)
  = (fold_left Spec.verdict_step (flat_map claimReview cs) v,
     summary ++ map Spec.review_line (flat_map claimReview cs)).
Proof.
  revert v summary. induction cs as [ | c cs IH]; intros v summary H.
  - cbn. rewrite app_nil_r. reflexivity.
  - cbn [fold_left flat_map]. unfold claim_step at 2.
    rewrite reviews_fold by exact H.
    rewrite IH by (apply fold_verdict_value, H).
    rewrite fold_left_app, map_app, <- app_assoc. reflexivity.
Qed.

(** The running verdict does not depend on the order of the reviews. *)
Lemma running_verdict_fold (rs : list Review) (v : option string) :
  Spec.verdict_value v ->
  fold_left Spec.verdict_step rs v
  = if existsb Spec.rated_fake rs || match v with Some "fake" => true | _ => false end
    then Some "fake"
    else if existsb Spec.rated_true rs then Some "true" else v.
Proof.
  revert v. induction rs as [ | r rs IH]; intros v H.
  - cbn. destruct H as [H | [H | H]]; subst v; reflexivity.
  - cbn [fold_left existsb]. rewrite IH by (apply verdict_step_value, H).
    unfold Spec.verdict_step. fold (Spec.rated_fake r). fold (Spec.rated_true r).
    destruct (Spec.rated_fake r); cbn [orb].
    + rewrite orb_true_r. reflexivity.
    + destruct (Spec.rated_true r); cbn [orb].
      * destruct H as [H | [H | H]]; subst v;
          destruct (existsb Spec.rated_fake rs);
          destruct (existsb Spec.rated_true rs); reflexivity.
      * reflexivity.
Qed.

End ClaimSummary.

(** C6. The verdict of [summarize_claims] is the one obtained by scanning
    the reviews of the first 5 claims in order: a rating with a fake word
    sets the verdict to fake, otherwise a rating with a true word sets it to
    true when no verdict was set before; with no match the verdict is
    uncertain; an empty list of claims gives no verdict and no summary. *)
Theorem summarize_claims_verdict (claims : list Factcheck.Claim) :
  fst (summarize_claims claims) = Spec.verdict claims
  /\ (claims = [] -> summarize_claims claims = (None, []))
  /\ (claims <> [] ->
      snd (summarize_claims claims) = Spec.summary claims
      /\ fst (summarize_claims claims)
         = Some (if existsb Spec.rated_fake (Spec.scanned_reviews claims) then "fake"
                 else if existsb Spec.rated_true (Spec.scanned_reviews claims) then "true"
                 else "uncertain")).
Proof.
  destruct claims as [ | c cs].
  - split; [reflexivity | ]. split; [reflexivity | ]. intro H. contradiction H. reflexivity.
  - assert (V : Spec.verdict_value None) by (left; reflexivity).
    unfold summarize_claims, Spec.verdict, Spec.running_verdict, Spec.summary.
    rewrite (claims_fold _ None [] V). fold (Spec.scanned_reviews (c :: cs)).
    cbn [fst snd app].
    pose proof (fold_verdict_value (Spec.scanned_reviews (c :: cs)) None V) as W.
    pose proof (running_verdict_fold (Spec.scanned_reviews (c :: cs)) None V) as R.
    rewrite orb_false_r in R.
    destruct (fold_left Spec.verdict_step (Spec.scanned_reviews (c :: cs)) None)
      as [v | ] eqn:E.
    + assert (K : v = "true" \/ v = "fake").
      { destruct W as [W | [W | W]]; inversion W; auto. }
      split; [destruct K; subst v; reflexivity | ].
      split; [discriminate | ]. intros _. split; [reflexivity | ].
      destruct (existsb Spec.rated_fake _); [ | destruct (existsb Spec.rated_true _)];
        inversion R; subst v; reflexivity.
    + split; [reflexivity | ]. split; [discriminate | ]. intros _.
      split; [reflexivity | ].
      destruct (existsb Spec.rated_fake _); [ | destruct (existsb Spec.rated_true _)];
        try discriminate R; reflexivity.
Qed.

Lemma summarize_claims_verdict_witness :
  summarize_claims [] = (None, [])
  /\ snd (summarize_claims Examples.sample_claims) = Spec.summary Examples.sample_claims
  /\ fst (summarize_claims Examples.sample_claims) = Some "fake".
Proof.
  split; [exact (proj1 (proj2 (summarize_claims_verdict [])) eq_refl) | ].
  assert (N : Examples.sample_claims <> []) by discriminate.
  destruct (proj2 (proj2 (summarize_claims_verdict Examples.sample_claims)) N) as [S V].
  split; [exact S | exact V].
Defined.

Section Lists.

Context {A : Type}.

Lemma firstn_incl (n : nat) (l : list A) (x : A) : In x (firstn n l) -> In x l.
Proof.
  revert l. induction n as [ | n IH]; intros [ | y l] H; cbn in H; try contradiction.
  destruct H as [H | H]; [left; exact H | right; apply IH, H].
Qed.

Lemma firstn_NoDup (n : nat) (l : list A) : NoDup l -> NoDup (firstn n l).
Proof.
  revert l. induction n as [ | n IH]; intros [ | y l] H; cbn; try constructor.
  - inversion H; subst. intro K. apply firstn_incl in K. contradiction.
  - inversion H; subst. apply IH. assumption.
Qed.

Lemma firstn_Forall (P : A -> Prop) (n : nat) (l : list A) :
  Forall P l -> Forall P (firstn n l).
Proof.
  intro H. apply Forall_forall. intros x K.
  apply firstn_incl in K. revert x K. apply Forall_forall, H.
Qed.

Lemma firstn_Sorted (R : A -> A -> Prop) (n : nat) (l : list A) :
  Sorted R l -> Sorted R (firstn n l).
Proof.
  revert l. induction n as [ | n IH]; intros [ | y l] H; cbn; try constructor.
  - inversion H; subst. apply IH. assumption.
  - inversion H as [ | ? ? S HR]; subst. destruct n; [constructor | ].
    destruct l; cbn; [constructor | ]. inversion HR; subst. constructor. assumption.
Qed.

Lemma nonempty_line_if (l : list A) (line : string) (acc : list string) :
  (if nonempty l then acc ++ [line] else acc)
  = acc ++ Spec.line_if (nonempty l) line.
Proof. destruct (nonempty l); cbn; [ | rewrite app_nil_r]; reflexivity. Qed.

End Lists.

Section Dedupe.

Lemma mem_In (x : string) (l : list string) : mem x l = true <-> In x l.
Proof.
  unfold mem. rewrite existsb_exists. split.
  - intros [y [H E]]. apply String.eqb_eq in E. subst y. exact H.
  - intro H. exists x. split; [exact H | apply String.eqb_refl].
Qed.

Lemma mem_false (x : string) (l : list string) : mem x l = false <-> ~ In x l.
Proof.
  rewrite <- mem_In. destruct (mem x l); split; intro H; try reflexivity;
    try discriminate; try (intro K; discriminate K). contradiction H. reflexivity.
Qed.

Context {A : Type} (key : A -> string).

Lemma dedupe_from_spec (l : list A) (seen : list string) :
  NoDup (map key (Spec.dedupe_from key seen l))
  /\ forall x, In x (Spec.dedupe_from key seen l) -> In x l /\ ~ In (key x) seen.
Proof.
  revert seen. induction l as [ | y l IH]; intro seen; cbn [Spec.dedupe_from].
  - split; [constructor | intros x []].
  - destruct (mem (key y) seen) eqn:M.
    + destruct (IH seen) as [N I]. split; [exact N | ].
      intros x H. destruct (I x H) as [I1 I2]. split; [right; exact I1 | exact I2].
    + destruct (IH (key y :: seen)) as [N I]. apply mem_false in M. split.
      * cbn [map]. constructor; [ | exact N].
        rewrite in_map_iff. intros [z [E H]]. destruct (I z H) as [_ I2].
        apply I2. left. symmetry. exact E.
      * intros x [E | H].
        { subst x. split; [left; reflexivity | exact M]. }
        { destruct (I x H) as [I1 I2]. split; [right; exact I1 | ].
          intro K. apply I2. right. exact K. }
Qed.



End Dedupe.

Section Terms.

Lemma fromkeys_dedupe (l : list string) (seen : list string) :
  fromkeys_from seen l = Spec.dedupe_from (fun t => t) seen l.
Proof.
  revert seen. induction l as [ | x l IH]; intro seen; cbn; [reflexivity | ].
  rewrite !IH. reflexivity.
Qed.

Lemma fromkeys_NoDup (l : list string) : NoDup (fromkeys l).
Proof.
  unfold fromkeys. rewrite fromkeys_dedupe.
  rewrite <- (map_id (Spec.dedupe_from _ _ _)). apply dedupe_from_spec.
Qed.

Lemma fromkeys_incl (l : list string) (x : string) : In x (fromkeys l) -> In x l.
Proof.
  unfold fromkeys. rewrite fromkeys_dedupe. intro H.
  apply (dedupe_from_spec (fun t => t)) in H. apply H.
Qed.

Lemma ltb_connected (x y : string) :
  String.ltb y x = false -> x <> y -> String.ltb x y = true.
Proof.
  unfold String.ltb. rewrite (String.compare_antisym x y).
  destruct (String.compare y x) eqn:C; cbn; intros H N;
    try reflexivity; try discriminate H.
  apply String.compare_eq_iff in C. congruence.
Qed.

Lemma insert_str_In (x z : string) (l : list string) :
  In z (insert_str x l) <-> z = x \/ In z l.
Proof.
  induction l as [ | y l IH]; cbn [insert_str].
  - cbn. intuition.
  - destruct (String.ltb y x); cbn [In]; [rewrite IH | ]; intuition.
Qed.

Lemma insert_str_Sorted (x : string) (l : list string) :
  ~ In x l -> Sorted Spec.str_lt l -> Sorted Spec.str_lt (insert_str x l).
Proof.
  induction l as [ | y l IH]; intros N S; cbn [insert_str].
  - repeat constructor.
  - destruct (String.ltb y x) eqn:L.
    + inversion S as [ | ? ? S' HR]; subst.
      constructor; [apply IH; [intro K; apply N; right; exact K | exact S'] | ].
      destruct l as [ | z l]; cbn [insert_str]; [constructor; exact L | ].
      destruct (String.ltb z x); constructor; [ | exact L].
      inversion HR; assumption.
    + constructor; [exact S | ]. constructor.
      apply ltb_connected; [exact L | ]. intro E. apply N. left. symmetry. exact E.
Qed.

Lemma insert_str_NoDup (x : string) (l : list string) :
  ~ In x l -> NoDup l -> NoDup (insert_str x l).
Proof.
  induction l as [ | y l IH]; intros N D; cbn [insert_str].
  - repeat constructor. intros [].
  - destruct (String.ltb y x).
    + inversion D; subst. constructor.
      * rewrite insert_str_In. intros [E | K]; [ | contradiction].
        apply N. left. exact E.
      * apply IH; [intro K; apply N; right; exact K | assumption].
    + constructor; assumption.
Qed.

Lemma sorted_str_spec (l : list string) :
  NoDup l ->
  Sorted Spec.str_lt (sorted_str l) /\ NoDup (sorted_str l)
  /\ forall z, In z (sorted_str l) <-> In z l.
Proof.
  induction l as [ | x l IH]; intro D.
  - cbn. repeat split; try constructor; intros [].
  - inversion D; subst. destruct (IH H2) as [S [N I]].
    assert (K : ~ In x (sorted_str l)) by (rewrite I; assumption).
    cbn [sorted_str fold_right]. fold (sorted_str l). split; [ | split].
    + apply insert_str_Sorted; assumption.
    + apply insert_str_NoDup; assumption.
    + intro z. rewrite insert_str_In, I. cbn [In]. intuition.
Qed.

Lemma sensational_lowercase :
  Forall (fun w => Spec.is_lowercase_word w = true) SENSATIONAL.
Proof. repeat constructor. Qed.

(** The terms of [_collect_insights] satisfy the invariant of section 3. *)
Lemma collect_insights_terms (text : string) (sentences : list (string * Q))
      (entities : list Provider.Entity) (i : Insights) :
  _collect_insights text sentences entities = Ok i ->
  Spec.terms_invariant (sensational_terms i).
Proof.
  intro H. destruct (collect_insights_total text sentences entities) as [i' [E [T _]]].
  rewrite E in H. injection H as H. subst i'. rewrite T.
  destruct (sorted_str_spec _ (fromkeys_NoDup (sensational_words text))) as [S [N I]].
  unfold Spec.terms_invariant. split; [apply firstn_length_le | ].
  split; [apply firstn_NoDup, N | ]. split; [apply firstn_Sorted, S | ].
  apply firstn_Forall, Forall_forall. intros w K.
  apply I, fromkeys_incl in K. unfold sensational_words in K.
  apply filter_In in K. destruct K as [_ K]. apply mem_In in K.
  revert w K. apply Forall_forall, sensational_lowercase.
Qed.

End Terms.

(** C7. On the degraded path the sensational terms are the words found, in
    text order and with their repetitions: for the text
    [miracle cure miracle] they are neither distinct nor sorted, although
    [_collect_insights] normalises them on the analysed path
    ([collect_insights_terms]). *)
Theorem fallback_terms_not_normalised :
  exists r,
    Model.classify_text None "miracle cure miracle" "en" = Ok r
    /\ sensational_terms (insights r) = ["miracle"; "cure"; "miracle"]
    /\ ~ NoDup (sensational_terms (insights r))
    /\ ~ Sorted Spec.str_lt (sensational_terms (insights r))
    /\ ~ Spec.terms_invariant (sensational_terms (insights r)).
Proof.
  eexists. split; [reflexivity | ].
  cbn [insights sensational_terms].
  assert (E : firstn 10 (sensational_words "miracle cure miracle")
              = ["miracle"; "cure"; "miracle"]) by reflexivity.
  rewrite E. split; [reflexivity | ].
  assert (D : ~ NoDup ["miracle"; "cure"; "miracle"]).
  { intro D. inversion D as [ | ? ? N _]; subst. apply N. right. left. reflexivity. }
  split; [exact D | ]. split.
  - intro S. inversion S as [ | ? ? _ HR]; subst. inversion HR as [ | ? ? L]; subst.
    discriminate L.
  - intros [_ [K _]]. exact (D K).
Qed.




Section Composer.

Lemma firstn_one_more {A : Type} (acc : list A) (x : A) (rest : list A) (k : nat) :
  (List.length acc < k)%nat ->
  acc ++ firstn (k - List.length acc) (x :: rest)
  = (acc ++ [x]) ++ firstn (k - List.length (acc ++ [x])) rest.
Proof.
  intro H. rewrite length_app. cbn [List.length].
  replace (k - List.length acc)%nat with (S (k - (List.length acc + 1)))%nat by lia.
  cbn [firstn]. rewrite <- app_assoc. reflexivity.
Qed.

Lemma firstn_full {A : Type} (acc : list A) (x : A) (rest : list A) (k : nat) :
  (List.length acc < k)%nat -> (k <= List.length (acc ++ [x]))%nat ->
  acc ++ firstn (k - List.length acc) (x :: rest) = acc ++ [x].
Proof.
  intros H K. rewrite firstn_one_more by exact H.
  replace (k - List.length (acc ++ [x]))%nat with 0%nat by lia.
  cbn [firstn]. apply app_nil_r.
Qed.

Lemma cats_loop_spec (raw_cats seen cats : list string) :
  (List.length cats < 3)%nat ->
  cats_loop raw_cats seen cats
  = cats ++ firstn (3 - List.length cats)
                   (Spec.dedupe_from lower seen
                      (map shorten (filter (fun c => negb (is_empty c)) raw_cats))).
Proof.
  revert seen cats. induction raw_cats as [ | c rest IH]; intros seen cats H.
  - cbn. rewrite firstn_nil, app_nil_r. reflexivity.
  - cbn [cats_loop filter]. destruct (is_empty c); cbn [negb]; [apply IH, H | ].
    cbn [map Spec.dedupe_from].
    destruct (mem (lower (shorten c)) seen); cbn [negb].
    + destruct (Nat.leb_spec 3 (List.length cats)); [lia | apply IH, H].
    + destruct (Nat.leb_spec 3 (List.length (cats ++ [shorten c]))) as [K | K].
      * symmetry. apply firstn_full; assumption.
      * rewrite IH by exact K. symmetry. apply firstn_one_more, H.
Qed.

Lemma names_loop_spec (ke : list KeyEntity) (seen names : list string) :
  (List.length names < 4)%nat ->
  names_loop ke seen names
  = names ++ firstn (4 - List.length names)
                    (map Spec.entity_display
                         (Spec.dedupe_from Spec.entity_key seen
                            (filter (fun e => negb (is_empty (ke_name e))) ke))).
Proof.
  revert seen names. induction ke as [ | e rest IH]; intros seen names H.
  - cbn. rewrite firstn_nil, app_nil_r. reflexivity.
  - cbn [names_loop filter]. destruct (is_empty (ke_name e)); cbn [negb]; [apply IH, H | ].
    cbn [Spec.dedupe_from]. fold (Spec.entity_key e).
    destruct (mem (Spec.entity_key e) seen); [apply IH, H | ].
    cbn [map]. fold (Spec.entity_display e).
    destruct (Nat.leb_spec 4 (List.length (names ++ [Spec.entity_display e]))) as [K | K].
    + symmetry. apply firstn_full; assumption.
    + rewrite IH by exact K. symmetry. apply firstn_one_more, H.
Qed.

Lemma notables_loop_spec (sentences seen notables : list string) :
  (List.length notables < 2)%nat ->
  notables_loop sentences seen notables
  = notables ++ firstn (2 - List.length notables)
                       (Spec.dedupe_from lower seen
                          (filter (fun s => negb (is_empty s)) (map strip sentences))).
Proof.
  revert seen notables. induction sentences as [ | s rest IH]; intros seen notables H.
  - cbn. rewrite firstn_nil, app_nil_r. reflexivity.
  - cbn [notables_loop map filter].
    destruct (is_empty (strip s)); cbn [negb]; [apply IH, H | ].
    cbn [Spec.dedupe_from].
    destruct (mem (lower (strip s)) seen); [apply IH, H | ].
    destruct (Nat.leb_spec 2 (List.length (notables ++ [strip s]))) as [K | K].
    + symmetry. apply firstn_full; assumption.
    + rewrite IH by exact K. symmetry. apply firstn_one_more, H.
Qed.

Lemma cats_loop_hints (raw_cats : list string) :
  cats_loop raw_cats [] [] = Spec.category_hints raw_cats.
Proof. rewrite cats_loop_spec by (cbn; lia). reflexivity. Qed.

Lemma names_loop_names (ke : list KeyEntity) :
  names_loop ke [] [] = Spec.entity_names ke.
Proof.
  rewrite names_loop_spec by (cbn; lia). cbn [List.length app Nat.sub].
  rewrite firstn_map. reflexivity.
Qed.

Lemma notables_loop_shown (sentences : list string) :
  notables_loop sentences [] [] = Spec.shown_notables sentences.
Proof. rewrite notables_loop_spec by (cbn; lia). reflexivity. Qed.

Lemma terms_shown (terms : list string) :
  firstn 6 (fromkeys terms) = Spec.shown_terms terms.
Proof. unfold fromkeys. rewrite fromkeys_dedupe. reflexivity. Qed.

Lemma fold_append_lines (mk : string -> string) (l acc : list string) :
  fold_left (fun explanation s => explanation ++ [mk s]) l acc = acc ++ map mk l.
Proof.
  revert acc. induction l as [ | s l IH]; intro acc; cbn [fold_left map].
  - symmetry. apply app_nil_r.
  - rewrite IH, <- app_assoc. reflexivity.
Qed.

Lemma bool_line_if (b : bool) (line : string) (acc : list string) :
  (if b then acc ++ [line] else acc) = acc ++ Spec.line_if b line.
Proof. destruct b; cbn; [ | rewrite app_nil_r]; reflexivity. Qed.

Lemma compose_explanation_body (f : Features) (i : Insights) :
  compose_explanation f i
  = if nonempty (Spec.explanation_body f i) then Spec.explanation_body f i
    else Spec.explanation_body f i ++ [GENERIC_LINE].
Proof.
  unfold compose_explanation. cbv zeta.
  rewrite cats_loop_hints, names_loop_names, notables_loop_shown, terms_shown.
  rewrite fold_append_lines, !bool_line_if.
  change (@nil string ++ ?x) with x. unfold Spec.explanation_body.
  rewrite <- !app_assoc. reflexivity.
Qed.


Lemma nonempty_map {A B : Type} (g : A -> B) (l : list A) :
  nonempty (map g l) = nonempty l.
Proof. destruct l; reflexivity. Qed.


End Composer.

Section Strings.

Lemma append_empty_r (s : string) : (s ++ "")%string = s.
Proof. induction s as [ | c s IH]; cbn; [ | rewrite IH]; reflexivity. Qed.

Lemma take_length (n : nat) (s : string) : (String.length (take n s) <= n)%nat.
Proof.
  revert s. induction n as [ | n IH]; intros [ | c s]; cbn; try lia.
  specialize (IH s). lia.
Qed.

Lemma take_all (n : nat) (s : string) : (String.length s <= n)%nat -> take n s = s.
Proof.
  revert s. induction n as [ | n IH]; intros [ | c s] H; cbn in *; try reflexivity; try lia.
  rewrite IH by lia. reflexivity.
Qed.
















End Strings.



Section Route.

Lemma compose_explanation_nonempty (f : Features) (i : Insights) :
  nonempty (compose_explanation f i) = true.
Proof.
  rewrite compose_explanation_body.
  destruct (nonempty (Spec.explanation_body f i)) eqn:E; [exact E | ].
  destruct (Spec.explanation_body f i); [reflexivity | discriminate E].
Qed.

Lemma merge_verdict_nonempty (r : Result) (e : list string)
      (fc_verdict : option string) (fc_summary : list string) :
  nonempty e = true ->
  nonempty (snd (merge_verdict r e fc_verdict fc_summary)) = true.
Proof.
  intro H. rewrite merge_verdict_eq.
  destruct (overrides fc_verdict); cbn [snd]; [reflexivity | ].
  destruct e; [discriminate H | reflexivity].
Qed.

(** The route returns the merged result and the merged explanation,
    followed by a note when the store failed; the second test for an
    empty explanation never fires. *)
Lemma verify_shape (env : Env) (input : string) (out : VerifyOut) :
  verify env input = Ok out ->
  exists r e,
    heuristic env (strip input) = Ok (r, e)
    /\ e = compose_explanation (features r) (insights r)
    /\ let claims := fact_check_search (search_api env) (take 120 (strip input)) "en" in
       let merged :=
         merge_verdict r e (fst (summarize_claims claims))
                       (snd (summarize_claims claims)) in
       out_label out = label (fst merged)
       /\ out_score out = score (fst merged)
       /\ out_confidence out = confidence (fst merged)
       /\ (out_explanation out = snd merged
           \/ exists exn, out_explanation out = snd merged ++ [db_note exn]).
Proof.
  unfold verify. intro H.
  destruct (get_db env) as [db | e0]; [cbn [bind] in H | discriminate H].
  destruct (heuristic env (strip input)) as [[r e] | e1] eqn:Hh;
    [cbn [bind] in H | discriminate H].
  exists r, e. split; [reflexivity | ].
  assert (He : e = compose_explanation (features r) (insights r)).
  { unfold heuristic in Hh.
    destruct (Model.classify_text _ _ _) as [r0 | ]; [ | discriminate Hh].
    cbn [bind] in Hh. injection Hh as Hr He. subst r0. symmetry. exact He. }
  split; [exact He | ]. cbv zeta.
  destruct (summarize_claims _) as [fc_verdict fc_summary]. cbn [fst snd].
  pose proof (merge_verdict_nonempty r e fc_verdict fc_summary) as N.
  rewrite He in N at 1. specialize (N (compose_explanation_nonempty _ _)).
  destruct (merge_verdict r e fc_verdict fc_summary) as [r' e'].
  cbn [fst snd] in *. rewrite N in H.
  destruct (save_article env _ _) as [id | e2];
    [destruct (save_verification env _ _ _) as [u | e3] | ];
    injection H as H; subst out;
    cbn [out_label out_score out_confidence out_explanation];
    repeat (split; [reflexivity | ]);
    [left; reflexivity | right; eexists; reflexivity | right; eexists; reflexivity].
Qed.

End Route.

(** * Further properties of the code *)

Section Sentences.

Lemma visible_app (a b : string) :
  Notions.visible (a ++ b) = (Notions.visible a ++ Notions.visible b)%string.
Proof.
  induction a as [ | c a IH]; cbn [append Notions.visible]; [reflexivity | ].
  destruct (char_isspace c); cbn [append]; rewrite IH; reflexivity.
Qed.

Lemma visible_lstrip (s : string) : Notions.visible (lstrip s) = Notions.visible s.
Proof.
  induction s as [ | c s IH]; cbn [lstrip Notions.visible]; [reflexivity | ].
  destruct (char_isspace c) eqn:E; [exact IH | ].
  cbn [Notions.visible]. rewrite E. reflexivity.
Qed.

Lemma visible_rstrip (s : string) : Notions.visible (rstrip s) = Notions.visible s.
Proof.
  induction s as [ | c s IH]; cbn [rstrip Notions.visible]; [reflexivity | ].
  destruct (is_empty (rstrip s)) eqn:E; cbn [andb].
  - destruct (rstrip s); [ | discriminate E]. cbn [Notions.visible] in IH.
    destruct (char_isspace c) eqn:S; cbn [Notions.visible]; rewrite ?S, <- IH; reflexivity.
  - cbn [Notions.visible]. rewrite IH. reflexivity.
Qed.

Lemma visible_strip (s : string) : Notions.visible (strip s) = Notions.visible s.
Proof. unfold strip. rewrite visible_lstrip. apply visible_rstrip. Qed.

Lemma concat_cons (p : string) (ps : list string) :
  String.concat "" (p :: ps) = (p ++ String.concat "" ps)%string.
Proof.
  destruct ps as [ | q ps]; cbn [String.concat]; [ | reflexivity].
  symmetry. apply append_empty_r.
Qed.

Lemma resplit_pieces_visible (s : string) (st : split_state) :
  Notions.visible (fst (resplit_pieces st s)
                   ++ String.concat "" (snd (resplit_pieces st s)))
  = Notions.visible s.
Proof.
  revert st. induction s as [ | c s IH]; intro st; [destruct st; reflexivity | ].
  cbn [resplit_pieces]. destruct st as [e | ].
  - destruct (e && char_isspace c) eqn:B.
    + apply andb_true_iff in B. destruct B as [_ B].
      specialize (IH InSeparator). destruct (resplit_pieces InSeparator s) as [p ps].
      cbn [fst snd] in *. rewrite concat_cons. cbn [append Notions.visible].
      rewrite B. exact IH.
    + specialize (IH (AfterChar (is_sentence_end c))).
      destruct (resplit_pieces (AfterChar (is_sentence_end c)) s) as [p ps].
      cbn [fst snd append Notions.visible] in *. rewrite IH. reflexivity.
  - destruct (char_isspace c) eqn:B.
    + cbn [Notions.visible]. rewrite B. apply IH.
    + specialize (IH (AfterChar (is_sentence_end c))).
      destruct (resplit_pieces (AfterChar (is_sentence_end c)) s) as [p ps].
      cbn [fst snd append Notions.visible] in *. rewrite B, IH. reflexivity.
Qed.

End Sentences.

(** X1. Splitting a text into sentences loses nothing but whitespace: the
    sentences, put end to end, have the non-blank characters of the text,
    in the same order. *)
Theorem split_sentences_keeps_text (text : string) :
  Notions.visible (String.concat "" (_split_sentences text)) = Notions.visible text.
Proof.
  unfold _split_sentences, resplit_sentences.
  pose proof (resplit_pieces_visible (strip text) (AfterChar false)) as H.
  destruct (resplit_pieces (AfterChar false) (strip text)) as [p ps].
  cbn [fst snd] in H. rewrite concat_cons, H. apply visible_strip.
Qed.

Section Trimming.

Lemma sentence_end_visible (c : ascii) :
  is_sentence_end c = true -> char_isspace c = false.
Proof.
  unfold is_sentence_end. intro H.
  apply orb_true_iff in H. destruct H as [H | H];
    [apply orb_true_iff in H; destruct H as [H | H] | ];
    apply Ascii.eqb_eq in H; subst c; reflexivity.
Qed.

Lemma rstrip_fixed_cons (c : ascii) (s : string) :
  rstrip (String c s) = String c s ->
  rstrip s = s /\ (s = "" -> char_isspace c = false).
Proof.
  cbn [rstrip]. destruct (is_empty (rstrip s) && char_isspace c) eqn:B;
    [discriminate | ].
  intro H. injection H as H. split; [exact H | ].
  intro E. subst s. cbn in B. exact B.
Qed.

Lemma rstrip_cons_fixed (c : ascii) (s : string) :
  rstrip s = s -> (s = "" -> char_isspace c = false) ->
  rstrip (String c s) = String c s.
Proof.
  intros H K. cbn [rstrip]. rewrite H. destruct s as [ | d s]; cbn [is_empty andb].
  - rewrite (K eq_refl). reflexivity.
  - reflexivity.
Qed.

Lemma rstrip_idempotent (s : string) : rstrip (rstrip s) = rstrip s.
Proof.
  induction s as [ | c s IH]; cbn [rstrip]; [reflexivity | ].
  destruct (is_empty (rstrip s) && char_isspace c) eqn:B; [reflexivity | ].
  cbn [rstrip]. rewrite IH, B. reflexivity.
Qed.

Lemma lstrip_keeps_rstrip (s : string) : rstrip s = s -> rstrip (lstrip s) = lstrip s.
Proof.
  induction s as [ | c s IH]; intro H; [reflexivity | ].
  cbn [lstrip]. destruct (char_isspace c); [ | exact H].
  apply IH. apply (rstrip_fixed_cons c s H).
Qed.

Lemma lstrip_head (s : string) (c : ascii) (r : string) :
  lstrip s = String c r -> char_isspace c = false.
Proof.
  induction s as [ | d s IH]; cbn [lstrip]; [discriminate | ].
  destruct (char_isspace d) eqn:E; [exact IH | ].
  intro H. injection H as H1 H2. subst d. exact E.
Qed.

Lemma lstrip_idempotent (s : string) : lstrip (lstrip s) = lstrip s.
Proof.
  destruct (lstrip s) as [ | c r] eqn:E; [reflexivity | ].
  cbn [lstrip]. rewrite (lstrip_head s c r E). reflexivity.
Qed.

Lemma rstrip_strip (s : string) : rstrip (strip s) = strip s.
Proof. unfold strip. apply lstrip_keeps_rstrip, rstrip_idempotent. Qed.

Lemma strip_idempotent (s : string) : strip (strip s) = strip s.
Proof.
  unfold strip at 1. rewrite rstrip_strip. unfold strip. apply lstrip_idempotent.
Qed.

Lemma strip_trimmed (s : string) : strip s <> "" -> Notions.trimmed (strip s).
Proof.
  intro H. split; [exact H | ]. split; [apply lstrip_idempotent | apply rstrip_strip].
Qed.

Lemma resplit_pieces_trimmed (s : string) (st : split_state) :
  rstrip s = s ->
  Notions.pieces_trimmed st s (fst (resplit_pieces st s)) (snd (resplit_pieces st s)).
Proof.
  revert st. induction s as [ | c s IH]; intros st H.
  - destruct st as [e | ]; unfold Notions.pieces_trimmed; cbn [resplit_pieces fst snd].
    + split; [constructor | ]. split; [reflexivity | ].
      split; [intros _; left; reflexivity | intros; discriminate].
    + split; [constructor | ]. intro K. exact (False_ind _ (K eq_refl)).
  - destruct (rstrip_fixed_cons c s H) as [Hs Hc]. unfold Notions.pieces_trimmed in *.
    cbn [resplit_pieces]. destruct st as [e | ].
    + destruct (e && char_isspace c) eqn:B.
      * apply andb_true_iff in B. destruct B as [Be Bc].
        specialize (IH InSeparator Hs).
        destruct (resplit_pieces InSeparator s) as [p ps]. cbn [fst snd] in *.
        destruct IH as [F T]. split.
        { constructor; [ | exact F]. apply T. intro E. specialize (Hc E). congruence. }
        split; [reflexivity | ]. split; [intros _; right; exact Be | ].
        intros c' s' E N. injection E as E1 E2. subst c'. congruence.
      * specialize (IH (AfterChar (is_sentence_end c)) Hs).
        destruct (resplit_pieces (AfterChar (is_sentence_end c)) s) as [p ps].
        cbn [fst snd] in *. destruct IH as [F [R [K _]]].
        split; [exact F | ]. split.
        { apply rstrip_cons_fixed; [exact R | ]. intro E.
          destruct (K E) as [E' | E']; [exact (Hc E') | apply sentence_end_visible, E']. }
        split; [discriminate | ].
        intros c' s' E N. injection E as E1 E2. subst c'.
        split; [discriminate | ]. cbn [lstrip]. rewrite N. reflexivity.
    + destruct (char_isspace c) eqn:Bc.
      * specialize (IH InSeparator Hs).
        destruct (resplit_pieces InSeparator s) as [p ps]. cbn [fst snd] in *.
        destruct IH as [F T]. split; [exact F | ].
        intros _. apply T. intro E. specialize (Hc E). congruence.
      * specialize (IH (AfterChar (is_sentence_end c)) Hs).
        destruct (resplit_pieces (AfterChar (is_sentence_end c)) s) as [p ps].
        cbn [fst snd] in *. destruct IH as [F [R [K _]]].
        split; [exact F | ]. intros _. split; [discriminate | ].
        split; [cbn [lstrip]; rewrite Bc; reflexivity | ].
        apply rstrip_cons_fixed; [exact R | ]. intros _. exact Bc.
Qed.

Lemma resplit_pieces_ends (s : string) (st : split_state) :
  let p := fst (resplit_pieces st s) in
  let ps := snd (resplit_pieces st s) in
  Notions.all_but_last_end ps
  /\ (ps <> [] ->
      Notions.last_is_end (match st with AfterChar e => e | InSeparator => false end) p
      = true).
Proof.
  revert st. induction s as [ | c s IH]; intro st.
  - destruct st; cbn; split; try exact I; intro K; exact (False_ind _ (K eq_refl)).
  - cbn [resplit_pieces]. destruct st as [e | ].
    + destruct (e && char_isspace c) eqn:B.
      * apply andb_true_iff in B. destruct B as [Be _].
        specialize (IH InSeparator).
        destruct (resplit_pieces InSeparator s) as [p ps]. cbn [fst snd] in *.
        destruct IH as [A L]. split; [ | intros _; exact Be].
        cbn [Notions.all_but_last_end]. split; [exact L | exact A].
      * specialize (IH (AfterChar (is_sentence_end c))).
        destruct (resplit_pieces (AfterChar (is_sentence_end c)) s) as [p ps].
        cbn [fst snd] in *. destruct IH as [A L]. split; [exact A | exact L].
    + destruct (char_isspace c).
      * apply IH.
      * specialize (IH (AfterChar (is_sentence_end c))).
        destruct (resplit_pieces (AfterChar (is_sentence_end c)) s) as [p ps].
        cbn [fst snd] in *. destruct IH as [A L]. split; [exact A | exact L].
Qed.

End Trimming.

Lemma split_sentences_pieces (text : string) :
  (strip text <> "" -> Forall Notions.trimmed (_split_sentences text))
  /\ (strip text = "" -> _split_sentences text = [""])
  /\ Notions.all_but_last_end (_split_sentences text)
  /\ _split_sentences text <> [].
Proof.
  unfold _split_sentences, resplit_sentences.
  pose proof (resplit_pieces_trimmed (strip text) (AfterChar false) (rstrip_strip text))
    as [F [R [_ T]]].
  pose proof (resplit_pieces_ends (strip text) (AfterChar false)) as [A L].
  destruct (resplit_pieces (AfterChar false) (strip text)) as [p ps] eqn:E.
  cbn [fst snd] in *. split; [ | split; [ | split; [ | discriminate]]].
  - intro N. constructor; [ | exact F].
    destruct (strip text) as [ | c r] eqn:S; [contradiction N; reflexivity | ].
    assert (V : char_isspace c = false).
    { unfold strip in S. apply (lstrip_head _ _ _ S). }
    destruct (T c r eq_refl V) as [T1 T2].
    split; [exact T1 | split; [exact T2 | exact R]].
  - intro S. rewrite S in E. cbn in E. injection E as E1 E2. subst. reflexivity.
  - cbn [Notions.all_but_last_end]. split; [exact L | exact A].
Qed.

(** X2. The sentences of a text that is not blank are not empty and have no
    whitespace at either end, and every sentence but the last ends with a
    full stop, an exclamation mark or a question mark; a blank text gives
    the single empty sentence. *)
Theorem split_sentences_trimmed (text : string) :
  (strip text <> "" -> Forall Notions.trimmed (_split_sentences text))
  /\ (strip text = "" -> _split_sentences text = [""])
  /\ Notions.all_but_last_end (_split_sentences text)
  /\ _split_sentences text <> [].
Proof. exact (split_sentences_pieces text). Qed.

Lemma split_sentences_trimmed_witness :
  Forall Notions.trimmed (_split_sentences "  Stocks fell!   Why?  Nobody knows ")
  /\ _split_sentences "   " = [""].
Proof.
  split.
  - apply (proj1 (split_sentences_trimmed "  Stocks fell!   Why?  Nobody knows ")).
    discriminate.
  - exact (proj1 (proj2 (split_sentences_trimmed "   ")) eq_refl).
Defined.

Section Signals.

Lemma hits_scaled (h : Z) :
  (0 <= h)%Z ->
  ((inject_Z h * 0.05 == 0)%Q <-> h = 0%Z)
  /\ ((0.25 <= inject_Z h * 0.05)%Q <-> (5 <= h)%Z).
Proof.
  intro H. split; split; intro K.
  - apply inject_Z_injective. change (inject_Z 0) with 0%Q. lra.
  - subst h. reflexivity.
  - assert (E : (inject_Z 5 <= inject_Z h)%Q) by (change (inject_Z 5) with 5%Q; lra).
    rewrite <- Zle_Qle in E. exact E.
  - rewrite Zle_Qle in K. change (inject_Z 5) with 5%Q in K. lra.
Qed.

Lemma penalty_extremes (r : Q) (e h : Z) :
  (0 <= h)%Z ->
  ((Spec.penalty r e h == 0)%Q <-> (r <= 0.12)%Q /\ (e < 3)%Z /\ h = 0%Z)
  /\ ((Spec.penalty r e h == 0.6)%Q <-> (0.12 < r)%Q /\ (3 <= e)%Z /\ (5 <= h)%Z).
Proof.
  intro H. destruct (hits_scaled h H) as [Z0 Z5].
  assert (P : (0 <= inject_Z h * 0.05)%Q).
  { apply Qmult_le_0_compat; [ | lra]. change 0%Q with (inject_Z 0).
    rewrite <- Zle_Qle. exact H. }
  unfold Spec.penalty.
  set (x := (inject_Z h * 0.05)%Q) in *.
  destruct (Q.min_spec 0.25 x) as [[M1 M2] | [M1 M2]];
    destruct (Qlt_le_dec 0.12 r) as [R | R];
    destruct (Z.leb_spec 3 e) as [E | E];
    match goal with
    | |- context [Qmin 0.6 ?t] =>
        destruct (Q.min_spec 0.6 t) as [[N1 N2] | [N1 N2]]; rewrite N2
    end;
    rewrite ?M2 in *;
    (split; split;
     [ intro K; try (exfalso; lra);
       repeat split; try assumption; try lia; try lra;
       try (apply Z0; lra); try (apply Z5; lra)
     | intros [K1 [K2 K3]]; try (exfalso; lra); try (exfalso; lia);
       try (apply Z0 in K3); try (apply Z5 in K3); try lra
     | intro K; try (exfalso; lra);
       repeat split; try assumption; try lia; try lra;
       try (apply Z0; lra); try (apply Z5; lra)
     | intros [K1 [K2 K3]]; try (exfalso; lra); try (exfalso; lia);
       try (apply Z0 in K3); try (apply Z5 in K3); try lra ]).
Qed.

End Signals.

(** X3. The penalty of the signal extractor is 0 exactly when no signal is
    present (capitals ratio at most 0.12, fewer than 3 exclamation marks, no
    sensational word), and it reaches its maximum 0.6 exactly when all three
    are (ratio above 0.12, at least 3 exclamation marks, at least 5
    sensational words). *)
Theorem text_red_flags_extremes (text : string) (p : Q) :
  _text_red_flags text = Ok p ->
  ((p == 0)%Q <->
   (Spec.caps_ratio text <= 0.12)%Q /\ (Spec.exclam_count text < 3)%Z
   /\ sensational_words text = [])
  /\ ((p == 0.6)%Q <->
      (0.12 < Spec.caps_ratio text)%Q /\ (3 <= Spec.exclam_count text)%Z
      /\ (5 <= List.length (sensational_words text))%nat).
Proof.
  intro H. destruct (text_red_flags_value text) as [p' [Hp [E _]]].
  rewrite Hp in H. injection H as H. subst p'.
  assert (N : (0 <= Spec.sensational_hits text)%Z) by (unfold Spec.sensational_hits; lia).
  destruct (penalty_extremes (Spec.caps_ratio text) (Spec.exclam_count text)
                             (Spec.sensational_hits text) N) as [P0 P6].
  rewrite E. unfold Spec.sensational_hits in *. split.
  - rewrite P0. split; intros [K1 [K2 K3]]; (split; [exact K1 | split; [exact K2 | ]]).
    + destruct (sensational_words text); [reflexivity | cbn in K3; lia].
    + rewrite K3. reflexivity.
  - rewrite P6. split; intros [K1 [K2 K3]]; (split; [exact K1 | split; [exact K2 | lia]]).
Qed.

Lemma text_red_flags_extremes_witness :
  exists p,
    _text_red_flags "Rates rose by 2% in May." = Ok p /\ (p == 0)%Q.
Proof.
  eexists. split; [reflexivity | ].
  apply (proj1 (text_red_flags_extremes "Rates rose by 2% in May." _ eq_refl)).
  split; [discriminate | split; reflexivity].
Defined.

(** X4. The entity-quality bonus lies between 0 and 0.3, is 0.03 for each
    grounded entity up to ten and 0.3 from ten on, and looks at the first 25
    entities only: whatever follows them changes nothing. *)
Theorem entity_quality_window (entities more : list Entity) :
  (0 <= _entity_quality entities)%Q
  /\ (_entity_quality entities <= 0.3)%Q
  /\ ((Spec.grounded_count entities <= 10)%Z ->
      (_entity_quality entities == 0.03 * inject_Z (Spec.grounded_count entities))%Q)
  /\ ((10 <= Spec.grounded_count entities)%Z -> (_entity_quality entities == 0.3)%Q)
  /\ ((25 <= List.length entities)%nat ->
      _entity_quality (entities ++ more) = _entity_quality entities).
Proof.
  pose proof (entity_quality_spec entities) as E.
  unfold Spec.entity_quality_bonus in E.
  assert (N : (0 <= Spec.grounded_count entities)%Z) by (unfold Spec.grounded_count; lia).
  assert (Q0 : (0 <= inject_Z (Spec.grounded_count entities))%Q).
  { change 0%Q with (inject_Z 0). rewrite <- Zle_Qle. exact N. }
  split; [ | split; [ | split; [ | split]]].
  - rewrite E. apply Q.min_glb; lra.
  - rewrite E. apply Q.le_min_l.
  - intro H. rewrite E. apply Q.min_r.
    rewrite Zle_Qle in H. change (inject_Z 10) with 10%Q in H. lra.
  - intro H. rewrite E. apply Q.min_l.
    rewrite Zle_Qle in H. change (inject_Z 10) with 10%Q in H. lra.
  - intro H. unfold _entity_quality.
    rewrite firstn_app. replace (25 - List.length entities)%nat with 0%nat by lia.
    cbn [firstn]. rewrite app_nil_r. reflexivity.
Qed.

Lemma entity_quality_window_witness :
  (_entity_quality Examples.sample_entities == 0.03 * inject_Z 2)%Q
  /\ (_entity_quality Samples.many_entities == 0.3)%Q
  /\ _entity_quality (Samples.many_entities ++ Examples.sample_entities)
     = _entity_quality Samples.many_entities.
Proof.
  split; [ | split].
  - apply (proj1 (proj2 (proj2 (entity_quality_window Examples.sample_entities [])))).
    vm_compute. discriminate.
  - apply (proj1 (proj2 (proj2 (proj2 (entity_quality_window Samples.many_entities []))))).
    vm_compute. discriminate.
  - apply (proj2 (proj2 (proj2 (proj2 (entity_quality_window
                                         Samples.many_entities
                                         Examples.sample_entities))))).
    apply Nat.leb_le. reflexivity.
Defined.

Section Failures.

Lemma analyze_available (c : Client) (text lang : string) :
  Spec.provider_unavailable (Some c) text lang = false ->
  exists sresp cats,
    _analyze (Some c) text lang
    = (entities <- analyze_entities c (plain_text text None) ;;
       Ok (Analyzed (document_sentiment sresp)
                    (map (fun s => (text_content s, magnitude (sentence_sentiment s)))
                         (Provider.sentences sresp))
                    entities cats))
    /\ (analyze_sentiment c (plain_text text (Some lang)) = Ok sresp
        \/ (raises (analyze_sentiment c (plain_text text (Some lang))) = true
            /\ analyze_sentiment c (plain_text text None) = Ok sresp))
    /\ (Provider.classify_text c (plain_text text None) = Ok cats
        \/ (raises (Provider.classify_text c (plain_text text None)) = true
            /\ cats = [])).
Proof.
  unfold Spec.provider_unavailable, _analyze. intro H.
  assert (C : exists cats,
             match Provider.classify_text c (plain_text text None) with
             | Ok cats => cats
             | Raise _ => []
             end = cats
             /\ (Provider.classify_text c (plain_text text None) = Ok cats
                 \/ (raises (Provider.classify_text c (plain_text text None)) = true
                     /\ cats = []))).
  { destruct (Provider.classify_text c (plain_text text None)) as [cats | e].
    - exists cats. split; [reflexivity | left; reflexivity].
    - exists []. split; [reflexivity | right; split; reflexivity]. }
  destruct C as [cats [C1 C2]]. rewrite C1.
  destruct (analyze_sentiment c (plain_text text (Some lang))) as [r1 | e1].
  - exists r1, cats. split; [reflexivity | ]. split; [left; reflexivity | exact C2].
  - destruct (analyze_sentiment c (plain_text text None)) as [r2 | e2];
      [ | discriminate H].
    exists r2, cats. split; [reflexivity | ].
    split; [right; split; reflexivity | exact C2].
Qed.

End Failures.

(** X5. [classify_text] raises in one case only: the sentiment analysis
    succeeded, with the language code or with auto-detection, and the entity
    analysis then failed; the exception is that of the entity analysis.  A
    missing client, a failed sentiment analysis and a failed category
    classification never raise. *)
Theorem classify_text_raises_iff (client : option Client) (text lang exn : string) :
  Model.classify_text client text lang = Raise exn
  <-> exists c,
        client = Some c
        /\ Spec.provider_unavailable client text lang = false
        /\ analyze_entities c (plain_text text None) = Raise exn.
Proof.
  split.
  - intro H. destruct (Spec.provider_unavailable client text lang) eqn:U.
    + destruct (classify_text_degraded client text lang U) as [p [_ K]]. congruence.
    + destruct client as [c | ]; [ | discriminate U].
      exists c. split; [reflexivity | ]. split; [reflexivity | ].
      destruct (analyze_available c text lang U) as [sresp [cats [A _]]].
      destruct (analyze_entities c (plain_text text None)) as [ents | e].
      * cbn [bind] in A.
        destruct (classify_text_analyzed _ _ _ _ _ _ _ A) as [p [i [_ [_ K]]]].
        congruence.
      * cbn [bind] in A. unfold Model.classify_text in H. rewrite A in H.
        cbn [bind] in H. congruence.
  - intros [c [E [U R]]]. subst client.
    destruct (analyze_available c text lang U) as [sresp [cats [A _]]].
    rewrite R in A. cbn [bind] in A.
    unfold Model.classify_text. rewrite A. reflexivity.
Qed.

Section Ranking.

Context {A : Type} (key : A -> Q).

Lemma insert_desc_In (x z : A) (l : list A) :
  In z (insert_desc key x l) <-> z = x \/ In z l.
Proof.
  induction l as [ | y l IH]; cbn [insert_desc].
  - cbn. intuition.
  - destruct (float_lt (key x) (key y)); cbn [In]; [rewrite IH | ]; intuition.
Qed.

Lemma insert_desc_perm (x : A) (l : list A) : Permutation (insert_desc key x l) (x :: l).
Proof.
  induction l as [ | y l IH]; cbn [insert_desc]; [reflexivity | ].
  destruct (float_lt (key x) (key y)); [ | reflexivity].
  rewrite IH. apply perm_swap.
Qed.

Lemma sorted_desc_perm (l : list A) : Permutation (sorted_desc key l) l.
Proof.
  induction l as [ | x l IH]; [reflexivity | ].
  cbn [sorted_desc fold_right]. fold (sorted_desc key l).
  rewrite insert_desc_perm, IH. reflexivity.
Qed.

Lemma insert_desc_sorted (x : A) (l : list A) :
  StronglySorted (Notions.not_above key) l ->
  StronglySorted (Notions.not_above key) (insert_desc key x l).
Proof.
  induction l as [ | y l IH]; intro S; cbn [insert_desc].
  - repeat constructor.
  - inversion S as [ | ? ? S' F]; subst.
    destruct (float_lt (key x) (key y)) eqn:L.
    + apply float_lt_true in L. constructor; [apply IH, S' | ].
      apply Forall_forall. intros z K. apply insert_desc_In in K.
      destruct K as [K | K].
      * subst z. unfold Notions.not_above. apply Qlt_le_weak, L.
      * revert z K. apply Forall_forall, F.
    + apply float_lt_false in L. constructor; [exact S | ].
      constructor; [exact L | ].
      apply Forall_forall. intros z K. unfold Notions.not_above.
      apply Qle_trans with (key y); [ | exact L].
      revert z K. apply Forall_forall, F.
Qed.

Lemma sorted_desc_sorted (l : list A) :
  StronglySorted (Notions.not_above key) (sorted_desc key l).
Proof.
  induction l as [ | x l IH]; [constructor | ].
  cbn [sorted_desc fold_right]. apply insert_desc_sorted, IH.
Qed.

Lemma sorted_split (n : nat) (l : list A) :
  StronglySorted (Notions.not_above key) l ->
  StronglySorted (Notions.not_above key) (firstn n l)
  /\ forall a b, In a (firstn n l) -> In b (skipn n l) -> Notions.not_above key a b.
Proof.
  revert l. induction n as [ | n IH]; intros l S.
  - cbn. split; [constructor | intros a b []].
  - destruct l as [ | x l]; [cbn; split; [constructor | intros a b []] | ].
    inversion S as [ | ? ? S' F]; subst. destruct (IH l S') as [I1 I2].
    cbn [firstn skipn]. split.
    + constructor; [exact I1 | ]. apply Forall_forall. intros z K.
      apply firstn_incl in K. revert z K. apply Forall_forall, F.
    + intros a b [Ka | Ka] Kb.
      * subst a. assert (In b l) as Kl.
        { rewrite <- (firstn_skipn n l). apply in_or_app. right. exact Kb. }
        clear Kb. revert b Kl. apply Forall_forall, F.
      * apply I2; assumption.
Qed.

(** The sort is stable: the elements of one key keep their order. *)
Lemma insert_desc_stable (k : Q) (x : A) (l : list A) :
  filter (fun a => Qeq_bool (key a) k) (insert_desc key x l)
  = filter (fun a => Qeq_bool (key a) k) (x :: l).
Proof.
  induction l as [ | y l IH]; cbn [insert_desc]; [reflexivity | ].
  destruct (float_lt (key x) (key y)) eqn:L; [ | reflexivity].
  apply float_lt_true in L.
  cbn [filter] in *. rewrite IH.
  destruct (Qeq_bool (key x) k) eqn:Ex; [ | reflexivity].
  destruct (Qeq_bool (key y) k) eqn:Ey; [ | reflexivity].
  apply Qeq_bool_iff in Ex. apply Qeq_bool_iff in Ey. exfalso. lra.
Qed.

Lemma sorted_desc_stable (k : Q) (l : list A) :
  filter (fun a => Qeq_bool (key a) k) (sorted_desc key l)
  = filter (fun a => Qeq_bool (key a) k) l.
Proof.
  induction l as [ | x l IH]; [reflexivity | ].
  cbn [sorted_desc fold_right]. fold (sorted_desc key l).
  rewrite insert_desc_stable. cbn [filter]. rewrite IH. reflexivity.
Qed.

End Ranking.

Section Insights.

Lemma for_each_candidates {X : Type} (f : X -> string)
      (body : list (Q * string) -> X -> Res (list (Q * string))) :
  (forall acc x, exists q, body acc x = Ok (acc ++ [(q, strip (f x))])) ->
  forall l acc,
  exists r,
    for_each body l acc = Ok r
    /\ map snd r = map snd acc ++ map (fun x => strip (f x)) l.
Proof.
  intros Hb l. induction l as [ | x l IH]; intro acc.
  - exists acc. split; [reflexivity | ]. cbn [map]. symmetry. apply app_nil_r.
  - destruct (Hb acc x) as [q E]. cbn [for_each]. rewrite E. cbn [bind].
    destruct (IH (acc ++ [(q, strip (f x))])) as [r [R1 R2]].
    exists r. split; [exact R1 | ].
    rewrite R2, map_app, <- app_assoc. reflexivity.
Qed.

(** The three fields of the insights, as functions of the inputs. *)
Lemma collect_insights_fields (text : string) (sentences : list (string * Q))
      (entities : list Entity) :
  exists candidates,
    _collect_insights text sentences entities
    = Ok {| key_entities :=
              map Notions.key_entity_of (firstn 8 (sorted_desc salience entities));
            sensational_terms :=
              firstn 10 (sorted_str (fromkeys (sensational_words text)));
            notable_sentences :=
              filter (fun s => negb (is_empty s))
                     (map snd (firstn 3 (sorted_desc fst candidates))) |}
    /\ map snd candidates = map strip (Notions.candidate_texts text sentences).
Proof.
  unfold _collect_insights.
  match goal with
  | |- context [for_each ?b sentences []] =>
      destruct (for_each_candidates (fun sm : string * Q => fst sm) b)
        with (l := sentences) (acc := @nil (Q * string)) as [c1 [E1 M1]]
  end.
  { intros acc [s mag]. destruct (shout_bonus_total s) as [b E]. rewrite E.
    cbn [bind fst]. eexists. reflexivity. }
  rewrite E1. cbn [bind]. cbn [map app] in M1.
  destruct sentences as [ | sm sentences].
  - destruct c1 as [ | c c1]; [ | discriminate M1].
    match goal with
    | |- context [for_each ?b (firstn 8 (_split_sentences text)) []] =>
        destruct (for_each_candidates (fun s : string => s) b)
          with (l := firstn 8 (_split_sentences text)) (acc := @nil (Q * string))
          as [c2 [E2 M2]]
    end.
    { intros acc s. destruct (shout_bonus_total s) as [b E]. rewrite E.
      cbn [bind]. eexists. reflexivity. }
    rewrite E2. cbn [bind]. exists c2. split; [reflexivity | exact M2].
  - destruct c1 as [ | c c1]; [discriminate M1 | ].
    cbn [bind]. exists (c :: c1). split; [reflexivity | ].
    cbn [Notions.candidate_texts]. rewrite map_map. exact M1.
Qed.

Lemma key_entity_filter (k : Q) (l : list Entity) :
  map Notions.key_entity_of (filter (fun e => Qeq_bool (salience e) k) l)
  = filter (fun e => Qeq_bool (ke_salience e) k) (map Notions.key_entity_of l).
Proof.
  induction l as [ | e l IH]; [reflexivity | ].
  cbn [map filter Notions.key_entity_of ke_salience].
  destruct (Qeq_bool (salience e) k); cbn [map]; rewrite IH; reflexivity.
Qed.

End Insights.

(** X6. The key entities are the 8 most salient entities, or all of them
    when there are fewer, most salient first: they and the entities left
    out are the entities of the provider, each once, and no entity left out
    is more salient than one that is kept. *)
Theorem key_entities_top (text : string) (sentences : list (string * Q))
        (entities : list Entity) (i : Insights) :
  _collect_insights text sentences entities = Ok i ->
  exists kept rest,
    key_entities i = map Notions.key_entity_of kept
    /\ Permutation (kept ++ rest) entities
    /\ List.length kept = Nat.min 8 (List.length entities)
    /\ StronglySorted (Notions.not_above salience) kept
    /\ (forall a b, In a kept -> In b rest -> (salience b <= salience a)%Q).
Proof.
  intro H. destruct (collect_insights_fields text sentences entities) as [c [E _]].
  rewrite E in H. injection H as H. subst i. cbn [key_entities].
  exists (firstn 8 (sorted_desc salience entities)),
         (skipn 8 (sorted_desc salience entities)).
  destruct (sorted_split salience 8 _ (sorted_desc_sorted salience entities)) as [S T].
  split; [reflexivity | ]. split; [rewrite firstn_skipn; apply sorted_desc_perm | ].
  split; [ | split; [exact S | exact T]].
  rewrite length_firstn, (Permutation_length (sorted_desc_perm salience entities)).
  reflexivity.
Qed.

Lemma key_entities_top_witness :
  exists i kept rest,
    _collect_insights Examples.sample_text [] Examples.sample_entities = Ok i
    /\ key_entities i = map Notions.key_entity_of kept
    /\ Permutation (kept ++ rest) Examples.sample_entities
    /\ List.length kept = Nat.min 8 (List.length Examples.sample_entities)
    /\ StronglySorted (Notions.not_above salience) kept
    /\ (forall a b, In a kept -> In b rest -> (salience b <= salience a)%Q).
Proof.
  eexists.
  destruct (key_entities_top Examples.sample_text [] Examples.sample_entities _ eq_refl)
    as [kept [rest H]].
  exists kept, rest. split; [reflexivity | exact H].
Defined.

(** X7. The ranking of the entities is stable: the key entities of one
    salience are the first entities of that salience, in the order the
    provider gave them. *)
Theorem key_entities_stable (text : string) (sentences : list (string * Q))
        (entities : list Entity) (i : Insights) (k : Q) :
  _collect_insights text sentences entities = Ok i ->
  exists later,
    map Notions.key_entity_of (filter (fun e => Qeq_bool (salience e) k) entities)
    = filter (fun e => Qeq_bool (ke_salience e) k) (key_entities i) ++ later.
Proof.
  intro H. destruct (collect_insights_fields text sentences entities) as [c [E _]].
  assert (K : key_entities i
              = map Notions.key_entity_of (firstn 8 (sorted_desc salience entities))).
  { rewrite E in H. injection H as H. rewrite <- H. reflexivity. }
  rewrite K. clear K E H.
  rewrite <- (sorted_desc_stable salience k entities).
  set (ranked := sorted_desc salience entities).
  exists (map Notions.key_entity_of
              (filter (fun e => Qeq_bool (salience e) k) (skipn 8 ranked))).
  rewrite <- (key_entity_filter k (firstn 8 ranked)), <- map_app, <- filter_app.
  rewrite firstn_skipn. reflexivity.
Qed.

Lemma key_entities_stable_witness :
  exists i later,
    _collect_insights Examples.sample_text [] Examples.sample_entities = Ok i
    /\ map Notions.key_entity_of
           (filter (fun e => Qeq_bool (salience e) 0.2) Examples.sample_entities)
       = filter (fun e => Qeq_bool (ke_salience e) 0.2) (key_entities i) ++ later.
Proof.
  eexists.
  destruct (key_entities_stable Examples.sample_text [] Examples.sample_entities _ 0.2
                                eq_refl) as [later H].
  exists later. split; [reflexivity | exact H].
Defined.

(** X8. The notable sentences are at most 3; each is a candidate text (a
    sentence of the provider or, when it gave none, one of the first 8
    sentences split from the text) without its surrounding whitespace, and
    none is empty. *)
Theorem notable_sentences_wellformed (text : string) (sentences : list (string * Q))
        (entities : list Entity) (i : Insights) :
  _collect_insights text sentences entities = Ok i ->
  (List.length (notable_sentences i) <= 3)%nat
  /\ Forall Notions.trimmed (notable_sentences i)
  /\ (forall s, In s (notable_sentences i) ->
        exists t, In t (Notions.candidate_texts text sentences) /\ s = strip t).
Proof.
  intro H. destruct (collect_insights_fields text sentences entities) as [c [E M]].
  assert (K : notable_sentences i
              = filter (fun s => negb (is_empty s))
                       (map snd (firstn 3 (sorted_desc fst c)))).
  { rewrite E in H. injection H as H. rewrite <- H. reflexivity. }
  rewrite K. clear K E H.
  assert (S : forall s,
             In s (filter (fun s => negb (is_empty s))
                          (map snd (firstn 3 (sorted_desc fst c)))) ->
             s <> "" /\ exists t, In t (Notions.candidate_texts text sentences)
                                  /\ s = strip t).
  { intros s K. apply filter_In in K. destruct K as [K N]. split.
    - intro Z. subst s. discriminate N.
    - apply in_map_iff in K. destruct K as [[q s'] [Q K]]. cbn [snd] in Q. subst s'.
      apply firstn_incl in K.
      apply (Permutation_in _ (sorted_desc_perm fst c)) in K.
      assert (In s (map snd c)) as K' by (apply in_map_iff; exists (q, s); auto).
      rewrite M in K'. apply in_map_iff in K'. destruct K' as [t [T1 T2]].
      exists t. split; [exact T2 | symmetry; exact T1]. }
  split; [ | split].
  - eapply Nat.le_trans; [apply filter_length_le | ].
    rewrite length_map. apply firstn_length_le.
  - apply Forall_forall. intros s K. destruct (S s K) as [N [t [_ T]]].
    subst s. apply strip_trimmed, N.
  - intros s K. apply (S s K).
Qed.

Lemma notable_sentences_wellformed_witness :
  exists i,
    _collect_insights Examples.sample_text [("Miracle cure found!  ", 0.3)] [] = Ok i
    /\ (List.length (notable_sentences i) <= 3)%nat
    /\ Forall Notions.trimmed (notable_sentences i)
    /\ (forall s, In s (notable_sentences i) ->
          exists t,
            In t (Notions.candidate_texts Examples.sample_text
                                          [("Miracle cure found!  ", 0.3)])
            /\ s = strip t).
Proof.
  eexists. split; [reflexivity | ].
  exact (notable_sentences_wellformed Examples.sample_text
                                      [("Miracle cure found!  ", 0.3)] [] _ eq_refl).
Defined.

Section Results.

Lemma round_digits_bounds (x : Q) :
  (0 <= x)%Q -> (x <= 0.6)%Q ->
  (0 <= round_digits x 3)%Q /\ (round_digits x 3 <= 0.6)%Q.
Proof.
  intros L U. unfold round_digits. change (10 ^ Z.of_nat 3)%Z with 1000%Z.
  assert (A : (0 <= round_half_even (x * inject_Z 1000))%Z).
  { apply round_half_even_lower. change (inject_Z 0) with 0%Q.
    change (inject_Z 1000) with 1000%Q. lra. }
  assert (B : (round_half_even (x * inject_Z 1000) <= 600)%Z).
  { apply round_half_even_upper. change (inject_Z 600) with 600%Q.
    change (inject_Z 1000) with 1000%Q. lra. }
  rewrite Zle_Qle in A, B.
  change (inject_Z 0) with 0%Q in A. change (inject_Z 600) with 600%Q in B.
  change (inject_Z 1000) with 1000%Q at 2 4.
  set (r := inject_Z (round_half_even (x * inject_Z 1000))) in *.
  split.
  - apply Qle_shift_div_l; lra.
  - apply Qle_shift_div_r; lra.
Qed.

Lemma confidence_of_bounds (sc : Z) :
  (0 <= sc <= 100)%Z ->
  (0 <= Spec.confidence_of sc)%Q /\ (Spec.confidence_of sc <= 1)%Q.
Proof.
  intro H. rewrite confidence_of_exact.
  assert (A : (0 <= Z.abs (sc - 50))%Z) by lia.
  assert (B : (Z.abs (sc - 50) <= 50)%Z) by lia.
  rewrite Zle_Qle in A, B.
  change (inject_Z 0) with 0%Q in A. change (inject_Z 50) with 50%Q in B.
  set (a := inject_Z (Z.abs (sc - 50))) in *.
  split.
  - apply Qle_shift_div_l; lra.
  - apply Qle_shift_div_r; lra.
Qed.

Lemma label_of_values (sc : Z) :
  label_of sc = "true" \/ label_of sc = "fake" \/ label_of sc = "uncertain".
Proof.
  unfold label_of. destruct (70 <=? sc)%Z; [auto | ]. destruct (sc <=? 30)%Z; auto.
Qed.

Lemma score_bounds (cats : list Category) (ents : list Entity) (m p : Q) :
  (0 <= Spec.score cats ents m p <= 100)%Z.
Proof. unfold Spec.score. rewrite round_clamp. lia. Qed.

(** The two shapes of a result of [classify_text]. *)
Lemma classify_text_cases (client : option Client) (text lang : string) (r : Result) :
  Model.classify_text client text lang = Ok r ->
  (Spec.provider_unavailable client text lang = true
   /\ exists p, _text_red_flags text = Ok p /\ r = Spec.fallback_result text p)
  \/ (Spec.provider_unavailable client text lang = false
      /\ exists s sents ents cats p i,
           _analyze client text lang = Ok (Analyzed s sents ents cats)
           /\ _text_red_flags text = Ok p
           /\ _collect_insights text sents ents = Ok i
           /\ r = {| label := label_of (Spec.score cats ents (magnitude s) p);
                     score := Spec.score cats ents (magnitude s) p;
                     confidence :=
                       Spec.confidence_of (Spec.score cats ents (magnitude s) p);
                     features :=
                       {| sensational_penalty := round_digits p 3;
                          sentiment_magnitude :=
                            if truthy s then magnitude s else 0.0;
                          entity_wiki_hits := Z.min 25 (Spec.grounded_count ents);
                          categories := firstn 5 (map category_name cats) |};
                     insights := i |}).
Proof.
  intro H. destruct (Spec.provider_unavailable client text lang) eqn:U.
  - left. split; [reflexivity | ].
    destruct (classify_text_degraded client text lang U) as [p [Hp Hr]].
    exists p. split; [exact Hp | congruence].
  - right. split; [reflexivity | ].
    destruct (_analyze client text lang) as [[ | s sents ents cats] | e] eqn:A.
    + apply analyze_degraded_iff in A. congruence.
    + destruct (classify_text_analyzed _ _ _ _ _ _ _ A) as [p [i [Hp [Hi Hr]]]].
      exists s, sents, ents, cats, p, i.
      split; [reflexivity | ]. split; [exact Hp | ]. split; [exact Hi | congruence].
    + unfold Model.classify_text in H. rewrite A in H. discriminate H.
Qed.

End Results.

(** X9. When the provider answered, the sensational terms of the result are
    at most 10 distinct lowercase words in alphabetical order, each a word
    of the sensational vocabulary that occurs in the text. *)
Theorem analysed_terms_normalised (client : option Client) (text lang : string)
        (r : Result) :
  Spec.provider_unavailable client text lang = false ->
  Model.classify_text client text lang = Ok r ->
  Spec.terms_invariant (sensational_terms (insights r))
  /\ (forall w, In w (sensational_terms (insights r)) ->
        In w SENSATIONAL /\ In w (findall_alpha (lower text))).
Proof.
  intros U H. destruct (classify_text_cases client text lang r H) as [[U' _] | [_ K]];
    [congruence | ].
  destruct K as [s [sents [ents [cats [p [i [_ [_ [Hi Hr]]]]]]]]].
  subst r. cbn [insights]. split; [apply (collect_insights_terms _ _ _ _ Hi) | ].
  destruct (collect_insights_total text sents ents) as [i' [E [T _]]].
  rewrite E in Hi. injection Hi as Hi. subst i'. rewrite T.
  intros w K. apply firstn_incl in K.
  destruct (sorted_str_spec _ (fromkeys_NoDup (sensational_words text))) as [_ [_ I]].
  apply I, fromkeys_incl in K. unfold sensational_words in K.
  apply filter_In in K. destruct K as [K1 K2]. apply mem_In in K2. auto.
Qed.

Lemma analysed_terms_normalised_witness :
  exists r,
    Model.classify_text (Some Examples.sample_client) Examples.sample_text "en" = Ok r
    /\ Spec.terms_invariant (sensational_terms (insights r))
    /\ (forall w, In w (sensational_terms (insights r)) ->
          In w SENSATIONAL /\ In w (findall_alpha (lower Examples.sample_text))).
Proof.
  eexists. split; [reflexivity | ].
  exact (analysed_terms_normalised (Some Examples.sample_client) Examples.sample_text
                                   "en" _ eq_refl eq_refl).
Defined.

(** X10. Every result of [classify_text], on either path, is well formed:
    the score lies in [0, 100], the label is one of true, fake and
    uncertain, the confidence lies in [0, 1], the penalty in [0, 0.6], the
    wiki hits in [0, 25], and there are at most 5 categories, 8 key
    entities, 10 sensational terms and 3 notable sentences. *)
Theorem classify_text_wellformed (client : option Client) (text lang : string)
        (r : Result) :
  Model.classify_text client text lang = Ok r ->
  (0 <= score r <= 100)%Z
  /\ (label r = "true" \/ label r = "fake" \/ label r = "uncertain")
  /\ ((0 <= confidence r)%Q /\ (confidence r <= 1)%Q)
  /\ ((0 <= sensational_penalty (features r))%Q
      /\ (sensational_penalty (features r) <= 0.6)%Q)
  /\ (0 <= entity_wiki_hits (features r) <= 25)%Z
  /\ (List.length (categories (features r)) <= 5)%nat
  /\ (List.length (key_entities (insights r)) <= 8)%nat
  /\ (List.length (sensational_terms (insights r)) <= 10)%nat
  /\ (List.length (notable_sentences (insights r)) <= 3)%nat.
Proof.
  intro H. destruct (classify_text_cases client text lang r H) as [[_ K] | [_ K]].
  - destruct K as [p [Hp Hr]]. subst r.
    destruct (text_red_flags_value text) as [p' [Hp' [_ [B1 B2]]]].
    rewrite Hp in Hp'. injection Hp' as Hp'. subst p'.
    cbn [Spec.fallback_result score label confidence features insights
         sensational_penalty entity_wiki_hits categories key_entities
         sensational_terms notable_sentences List.length].
    split; [lia | ]. split; [auto | ]. split; [split; lra | ].
    split; [split; assumption | ]. split; [lia | ]. split; [lia | ]. split; [lia | ].
    split; [apply firstn_length_le | ].
    eapply Nat.le_trans; [apply firstn_length_le | lia].
  - destruct K as [s [sents [ents [cats [p [i [_ [Hp [Hi Hr]]]]]]]]]. subst r.
    destruct (text_red_flags_value text) as [p' [Hp' [_ [B1 B2]]]].
    rewrite Hp in Hp'. injection Hp' as Hp'. subst p'.
    destruct (collect_insights_total text sents ents) as [i' [E [T [L1 L2]]]].
    rewrite E in Hi. injection Hi as Hi. subst i'.
    pose proof (score_bounds cats ents (magnitude s) p) as SB.
    cbn [score label confidence features insights sensational_penalty
         entity_wiki_hits categories].
    split; [exact SB | ]. split; [apply label_of_values | ].
    split; [apply confidence_of_bounds, SB | ].
    split; [apply round_digits_bounds; assumption | ].
    split; [unfold Spec.grounded_count; lia | ].
    split; [apply firstn_length_le | ]. split; [exact L1 | ].
    split; [rewrite T; apply firstn_length_le | exact L2].
Qed.

Lemma classify_text_wellformed_witness :
  exists r,
    Model.classify_text (Some Examples.sample_client) Examples.sample_text "en" = Ok r
    /\ (0 <= score r <= 100)%Z
    /\ (label r = "true" \/ label r = "fake" \/ label r = "uncertain")
    /\ ((0 <= confidence r)%Q /\ (confidence r <= 1)%Q)
    /\ ((0 <= sensational_penalty (features r))%Q
        /\ (sensational_penalty (features r) <= 0.6)%Q)
    /\ (0 <= entity_wiki_hits (features r) <= 25)%Z
    /\ (List.length (categories (features r)) <= 5)%nat
    /\ (List.length (key_entities (insights r)) <= 8)%nat
    /\ (List.length (sensational_terms (insights r)) <= 10)%nat
    /\ (List.length (notable_sentences (insights r)) <= 3)%nat.
Proof.
  eexists. split; [reflexivity | ].
  exact (classify_text_wellformed (Some Examples.sample_client) Examples.sample_text
                                  "en" _ eq_refl).
Defined.

(** X11. When the provider answered, the rounding of the confidence to two
    decimals is exact, the confidence is |score - 50| / 50, and the result
    is labelled uncertain exactly when its confidence is below 0.4. *)
Theorem confidence_label_relation (client : option Client) (text lang : string)
        (r : Result) :
  Spec.provider_unavailable client text lang = false ->
  Model.classify_text client text lang = Ok r ->
  (confidence r == inject_Z (Z.abs (score r - 50)) / 50)%Q
  /\ (label r = "uncertain" <-> (confidence r < 0.4)%Q).
Proof.
  intros U H. destruct (classify_text_cases client text lang r H) as [[U' _] | [_ K]];
    [congruence | ].
  destruct K as [s [sents [ents [cats [p [i [_ [_ [_ Hr]]]]]]]]]. subst r.
  cbn [label score confidence].
  generalize (Spec.score cats ents (magnitude s) p). intro sc.
  split; [apply confidence_of_exact | ].
  rewrite confidence_of_exact.
  destruct (label_of_consistent sc) as [_ [_ L]]. rewrite L.
  assert (E : forall a : Z, (inject_Z a / 50 < 0.4)%Q <-> (a < 20)%Z).
  { intro a. rewrite Zlt_Qlt. change (inject_Z 20) with 20%Q.
    assert (F : (inject_Z a == inject_Z a / 50 * 50)%Q) by field.
    set (q := (inject_Z a / 50)%Q) in *. split; intro K; lra. }
  rewrite E. lia.
Qed.

Lemma confidence_label_relation_witness :
  exists r,
    Model.classify_text (Some Examples.sample_client) Examples.sample_text "en" = Ok r
    /\ (confidence r == inject_Z (Z.abs (score r - 50)) / 50)%Q
    /\ (label r = "uncertain" <-> (confidence r < 0.4)%Q).
Proof.
  eexists. split; [reflexivity | ].
  exact (confidence_label_relation (Some Examples.sample_client) Examples.sample_text
                                   "en" _ eq_refl eq_refl).
Defined.

Section Requirements.

Lemma category_bonus_bounds (cats : list Category) :
  (0 <= Spec.category_bonus cats)%Q /\ (Spec.category_bonus cats <= 5)%Q.
Proof. unfold Spec.category_bonus. destruct (existsb _ cats); split; lra. Qed.

Lemma raw_score_upper (cats : list Category) (ents : list Entity) (m p : Q) :
  (0 <= m)%Q -> (0 <= p)%Q ->
  (Spec.raw_score cats ents m p
   <= inject_Z (55 + 3 * Spec.grounded_count ents))%Q.
Proof.
  intros M P. unfold Spec.raw_score, Spec.entity_quality_bonus.
  destruct (category_bonus_bounds cats) as [_ C].
  pose proof (Q.le_min_r 0.3 (0.03 * inject_Z (Spec.grounded_count ents))) as E.
  assert (S : (0 <= Qmin 20 (m * 3))%Q) by (apply Q.min_glb; lra).
  rewrite inject_Z_plus, inject_Z_mult.
  change (inject_Z 55) with 55%Q. change (inject_Z 3) with 3%Q. lra.
Qed.

Lemma raw_score_lower (cats : list Category) (ents : list Entity) (m p : Q) :
  (50 - Qmin 20 (m * 3) - p * 100 <= Spec.raw_score cats ents m p)%Q.
Proof.
  unfold Spec.raw_score, Spec.entity_quality_bonus.
  destruct (category_bonus_bounds cats) as [C _].
  assert (N : (0 <= Spec.grounded_count ents)%Z) by (unfold Spec.grounded_count; lia).
  rewrite Zle_Qle in N. change (inject_Z 0) with 0%Q in N.
  assert (E : (0 <= Qmin 0.3 (0.03 * inject_Z (Spec.grounded_count ents)))%Q)
    by (apply Q.min_glb; lra).
  lra.
Qed.

Lemma clamp_bounds (x : Q) :
  (Spec.clamp 0 100 x <= Qmax 0 x)%Q /\ (Qmin 100 x <= Spec.clamp 0 100 x)%Q.
Proof.
  unfold Spec.clamp. split.
  - apply Q.max_le_compat_l, Q.le_min_r.
  - apply Q.le_max_r.
Qed.

End Requirements.

(** X12. What a label requires when the provider answered.  With a
    non-negative sentiment magnitude the score is at most 55 plus 3 per
    grounded entity, so that a result is labelled true only if at least 5
    of the first 25 entities are grounded; and a result is labelled fake
    only if the text has a sensational penalty or the magnitude is at least
    6.5. *)
Theorem label_requirements (client : option Client) (text lang : string)
        (s : Sentiment) (sents : list (string * Q)) (ents : list Entity)
        (cats : list Category) (r : Result) (p : Q) :
  _analyze client text lang = Ok (Analyzed s sents ents cats) ->
  Model.classify_text client text lang = Ok r ->
  _text_red_flags text = Ok p ->
  ((0 <= magnitude s)%Q ->
   (score r <= 55 + 3 * Spec.grounded_count ents)%Z
   /\ (label r = "true" -> (5 <= Spec.grounded_count ents)%Z))
  /\ (label r = "fake" -> (0 < p)%Q \/ (6.5 <= magnitude s)%Q).
Proof.
  intros A H Hp.
  destruct (classify_text_analyzed _ _ _ _ _ _ _ A) as [p' [i [Hp' [_ Hr]]]].
  rewrite Hp in Hp'. injection Hp' as Hp'. subst p'.
  rewrite Hr in H. injection H as H. subst r. cbn [label score].
  destruct (text_red_flags_value text) as [p' [Hp' [_ [P0 _]]]].
  rewrite Hp in Hp'. injection Hp' as Hp'. subst p'.
  destruct (clamp_bounds (Spec.raw_score cats ents (magnitude s) p)) as [C1 C2].
  assert (N : Spec.nearest_integer
                (Spec.clamp 0 100 (Spec.raw_score cats ents (magnitude s) p))
                (Spec.score cats ents (magnitude s) p))
    by apply round_half_even_nearest.
  assert (B : (0 <= magnitude s)%Q ->
              (Spec.score cats ents (magnitude s) p
               <= 55 + 3 * Spec.grounded_count ents)%Z).
  { intro M. unfold Spec.score. apply round_half_even_upper.
    eapply Qle_trans; [exact C1 | ]. apply Q.max_lub.
    - change 0%Q with (inject_Z 0). rewrite <- Zle_Qle.
      unfold Spec.grounded_count. lia.
    - apply raw_score_upper; assumption. }
  pose proof (raw_score_lower cats ents (magnitude s) p) as R.
  revert N B. generalize (Spec.score cats ents (magnitude s) p). intros sc [N1 N2] B.
  destruct (label_of_consistent sc) as [LT [LF _]].
  split.
  - intro M. split; [exact (B M) | ]. intro L. apply LT in L. specialize (B M). lia.
  - intro L. apply LF in L.
    destruct (Qlt_le_dec 0 p) as [P | P]; [left; exact P | right].
    rewrite Zle_Qle in L. change (inject_Z 30) with 30%Q in L.
    destruct (Q.min_spec 100 (Spec.raw_score cats ents (magnitude s) p))
      as [[M1 M2] | [M1 M2]]; rewrite M2 in C2.
    + exfalso. lra.
    + destruct (Q.min_spec 20 (magnitude s * 3)) as [[K1 K2] | [K1 K2]];
        rewrite K2 in R; lra.
Qed.

Lemma label_requirements_witness :
  exists r p,
    Model.classify_text (Some Examples.sample_client) Examples.sample_text "en" = Ok r
    /\ _text_red_flags Examples.sample_text = Ok p
    /\ (score r <= 55 + 3 * Spec.grounded_count Examples.sample_entities)%Z
    /\ (label r = "true" -> (5 <= Spec.grounded_count Examples.sample_entities)%Z).
Proof.
  eexists. eexists. split; [reflexivity | ]. split; [reflexivity | ].
  apply (proj1 (label_requirements (Some Examples.sample_client) Examples.sample_text
                                   "en" _ _ _ _ _ _ eq_refl eq_refl eq_refl)).
  discriminate.
Defined.

Section Verdicts.

Lemma summarize_claims_fst (claims : list Claim) :
  fst (summarize_claims claims)
  = match claims with
    | [] => None
    | _ :: _ =>
        Some (if existsb Spec.rated_fake (Spec.scanned_reviews claims) then "fake"
              else if existsb Spec.rated_true (Spec.scanned_reviews claims) then "true"
              else "uncertain")
    end.
Proof.
  destruct claims as [ | c cs]; [reflexivity | ].
  assert (V : Spec.verdict_value None) by (left; reflexivity).
  unfold summarize_claims. rewrite (claims_fold _ None [] V).
  fold (Spec.scanned_reviews (c :: cs)). cbn [fst].
  rewrite (running_verdict_fold _ None V), orb_false_r.
  destruct (existsb Spec.rated_fake _); [reflexivity | ].
  destruct (existsb Spec.rated_true _); reflexivity.
Qed.

Lemma scanned_reviews_app (claims more : list Claim) :
  (List.length (claims ++ more) <= 5)%nat ->
  Spec.scanned_reviews (claims ++ more)
  = Spec.scanned_reviews claims ++ Spec.scanned_reviews more.
Proof.
  intro H. unfold Spec.scanned_reviews.
  rewrite (firstn_all2 (claims ++ more)) by exact H.
  rewrite length_app in H.
  rewrite (firstn_all2 claims), (firstn_all2 more) by lia. apply flat_map_app.
Qed.

End Verdicts.

(** X13. Only the first five claims count: the claims after them change
    neither the verdict nor the summary.  Within the first five, further
    claims can only strengthen the verdict, from none or uncertain to true
    and from true to fake, never the other way. *)
Theorem summarize_claims_monotone (claims more : list Claim) :
  ((5 <= List.length claims)%nat ->
   summarize_claims (claims ++ more) = summarize_claims claims)
  /\ ((List.length (claims ++ more) <= 5)%nat ->
      (Notions.verdict_rank (fst (summarize_claims claims))
       <= Notions.verdict_rank (fst (summarize_claims (claims ++ more))))%nat).
Proof.
  split.
  - intro H. destruct claims as [ | c cs]; [cbn in H; lia | ].
    unfold summarize_claims. cbn [app].
    change (c :: cs ++ more) with ((c :: cs) ++ more).
    rewrite firstn_app. replace (5 - List.length (c :: cs))%nat with 0%nat by lia.
    cbn [firstn]. rewrite app_nil_r. reflexivity.
  - intro H. rewrite !summarize_claims_fst.
    destruct claims as [ | c cs]; [apply Nat.le_0_l | ].
    rewrite (scanned_reviews_app (c :: cs) more H). cbn [app].
    rewrite !existsb_app.
    destruct (existsb Spec.rated_fake (Spec.scanned_reviews (c :: cs)));
      destruct (existsb Spec.rated_fake (Spec.scanned_reviews more));
      destruct (existsb Spec.rated_true (Spec.scanned_reviews (c :: cs)));
      destruct (existsb Spec.rated_true (Spec.scanned_reviews more));
      cbn; lia.
Qed.

Lemma summarize_claims_monotone_witness :
  summarize_claims (repeat (hd {| claimReview := [] |} Examples.sample_claims) 5
                    ++ Examples.sample_claims)
  = summarize_claims (repeat (hd {| claimReview := [] |} Examples.sample_claims) 5)
  /\ (Notions.verdict_rank (fst (summarize_claims [{| claimReview := [] |}]))
      <= Notions.verdict_rank
           (fst (summarize_claims ([{| claimReview := [] |}] ++ Examples.sample_claims))))%nat.
Proof.
  split.
  - apply (proj1 (summarize_claims_monotone
                    (repeat (hd {| claimReview := [] |} Examples.sample_claims) 5)
                    Examples.sample_claims)).
    apply Nat.leb_le. reflexivity.
  - apply (proj2 (summarize_claims_monotone [{| claimReview := [] |}]
                                            Examples.sample_claims)).
    apply Nat.leb_le. reflexivity.
Defined.

Section Routes.

Lemma heuristic_eq (env : Env) (input : string) :
  heuristic env (strip input)
  = (result <- Model.classify_text (client env) (Notions.classifier_input input) "en" ;;
     Ok (result, compose_explanation (features result) (insights result))).
Proof. reflexivity. Qed.

(** [verify], once the store is open and the classifier has answered. *)
Lemma verify_stored (env : Env) (input : string) (db : unit) (r : Result) :
  get_db env = Ok db ->
  Model.classify_text (client env) (Notions.classifier_input input) "en" = Ok r ->
  let e := compose_explanation (features r) (insights r) in
  let m := Notions.merged env input r e in
  exists out,
    verify env input = Ok out
    /\ out_label out = label (fst m)
    /\ out_score out = score (fst m)
    /\ out_confidence out = confidence (fst m)
    /\ out_features out = features r
    /\ out_insights out = insights r
    /\ match save_article env (take 100 (strip input)) (strip input) with
       | Raise exn =>
           out_article_id out = None
           /\ out_explanation out = snd m ++ [db_note exn]
       | Ok id =>
           out_article_id out = Some id
           /\ match save_verification env (Some id) (fst m) (snd m) with
              | Ok _ => out_explanation out = snd m
              | Raise exn => out_explanation out = snd m ++ [db_note exn]
              end
       end.
Proof.
  intros D C e m. unfold verify. rewrite D. cbn [bind].
  rewrite heuristic_eq, C. cbn [bind].
  fold e. unfold m, Notions.merged, Notions.fact_check.
  destruct (summarize_claims _) as [fc_verdict fc_summary]. cbn [fst snd].
  pose proof (merge_verdict_nonempty r e fc_verdict fc_summary
                                     (compose_explanation_nonempty _ _)) as N.
  assert (F : features (fst (merge_verdict r e fc_verdict fc_summary)) = features r
              /\ insights (fst (merge_verdict r e fc_verdict fc_summary)) = insights r).
  { rewrite merge_verdict_eq. destruct (overrides fc_verdict); split; reflexivity. }
  destruct (merge_verdict r e fc_verdict fc_summary) as [r' e'].
  cbn [fst snd] in *. rewrite N. destruct F as [F1 F2].
  destruct (save_article env _ _) as [id | e2];
    [destruct (save_verification env _ _ _) as [u | e3] | ];
    eexists; (split; [reflexivity | ]);
    cbn [out_label out_score out_confidence out_explanation out_article_id
         out_features out_insights];
    repeat (split; [reflexivity || assumption | ]); split; reflexivity.
Qed.

End Routes.

(** X14. [verify] raises in two cases only: the store cannot be opened, or
    the classifier raises; it then raises the same exception.  A failure of
    the fact-check search or of a save never raises. *)
Theorem verify_raises_iff (env : Env) (input exn : string) :
  verify env input = Raise exn
  <-> get_db env = Raise exn
      \/ (raises (get_db env) = false
          /\ Model.classify_text (client env) (Notions.classifier_input input) "en"
             = Raise exn).
Proof.
  destruct (get_db env) as [db | e0] eqn:D.
  - destruct (Model.classify_text (client env) (Notions.classifier_input input) "en")
      as [r | e1] eqn:C.
    + destruct (verify_stored env input db r D C) as [out [V _]]. rewrite V.
      split; [discriminate | ]. intros [K | [_ K]]; discriminate K.
    + assert (V : verify env input = Raise e1).
      { unfold verify. rewrite D. cbn [bind]. rewrite heuristic_eq, C. reflexivity. }
      rewrite V. split.
      * intro K. right. split; [reflexivity | ]. congruence.
      * intros [K | [_ K]]; [discriminate K | congruence].
  - assert (V : verify env input = Raise e0).
    { unfold verify. rewrite D. reflexivity. }
    rewrite V. split.
    + intro K. left. congruence.
    + intros [K | [K _]]; [congruence | discriminate K].
Qed.



Section RouteInvariants.

Lemma classify_text_consistent (client : option Client) (text lang : string)
      (r : Result) :
  Model.classify_text client text lang = Ok r ->
  Spec.label_consistent r
  /\ (0 <= score r <= 100)%Z
  /\ ((0 <= confidence r)%Q /\ (confidence r <= 1)%Q).
Proof.
  intro H. destruct (classify_text_cases client text lang r H) as [[_ K] | [_ K]].
  - destruct K as [p [_ Hr]]. subst r.
    unfold Spec.label_consistent. cbn [Spec.fallback_result label score confidence].
    split; [ | split; [lia | split; lra]].
    repeat split; intros; try discriminate; try lia; reflexivity.
  - destruct K as [s [sents [ents [cats [p [i [_ [_ [_ Hr]]]]]]]]]. subst r.
    pose proof (score_bounds cats ents (magnitude s) p) as SB.
    unfold Spec.label_consistent. cbn [label score confidence].
    revert SB. generalize (Spec.score cats ents (magnitude s) p). intros sc SB.
    split; [apply label_of_consistent | ].
    split; [exact SB | apply confidence_of_bounds, SB].
Qed.

Lemma merged_consistent (r : Result) (e : list string) (v : option string)
      (s : list string) :
  Spec.label_consistent r -> (0 <= score r <= 100)%Z ->
  ((0 <= confidence r)%Q /\ (confidence r <= 1)%Q) ->
  Spec.label_consistent (fst (merge_verdict r e v s))
  /\ (0 <= score (fst (merge_verdict r e v s)) <= 100)%Z
  /\ ((0 <= confidence (fst (merge_verdict r e v s)))%Q
      /\ (confidence (fst (merge_verdict r e v s)) <= 1)%Q).
Proof.
  intros L S C. rewrite merge_verdict_eq.
  destruct (overrides v) as [w | ] eqn:O; cbn [fst]; [ | auto].
  apply overrides_some in O. destruct O as [_ O].
  split; [apply set_verdict_consistent, O | ].
  cbn [set_verdict score confidence].
  split; [destruct (String.eqb w "true"); lia | split; lra].
Qed.

Lemma line_if_length (b : bool) (line : string) :
  (List.length (Spec.line_if b line) <= 1)%nat.
Proof. destruct b; cbn; lia. Qed.

Lemma compose_explanation_length (f : Features) (i : Insights) :
  (1 <= List.length (compose_explanation f i) <= 8)%nat.
Proof.
  rewrite compose_explanation_body.
  assert (B : (List.length (Spec.explanation_body f i) <= 8)%nat).
  { unfold Spec.explanation_body. rewrite !length_app, length_map.
    pose proof (firstn_length_le 2
                  (Spec.dedupe_by lower
                     (filter (fun s => negb (is_empty s))
                             (map strip (notable_sentences i))))) as N.
    fold (Spec.shown_notables (notable_sentences i)) in N.
    repeat match goal with
           | |- context [List.length (Spec.line_if ?b ?l)] =>
               pose proof (line_if_length b l);
               generalize dependent (List.length (Spec.line_if b l)); intros
           end.
    lia. }
  destruct (Spec.explanation_body f i) as [ | l ls]; cbn [nonempty]; cbn in *; lia.
Qed.

Lemma merge_verdict_length (r : Result) (e : list string) (v : option string)
      (s : list string) :
  (List.length e <= List.length (snd (merge_verdict r e v s)) <= List.length e + 4)%nat.
Proof.
  rewrite merge_verdict_eq. pose proof (firstn_length_le 3 s) as F.
  destruct (overrides v); cbn [snd List.length]; rewrite length_app; lia.
Qed.

End RouteInvariants.

(** X16. Whatever the provider, the fact-check service and the store do, an
    answer of [verify] is well formed: the score lies in [0, 100], the label
    agrees with the score under the thresholds 70 and 30, the confidence
    lies in [0, 1], and the explanation has at least 1 and at most 13
    lines. *)
Theorem verify_wellformed (env : Env) (input : string) (out : VerifyOut) :
  verify env input = Ok out ->
  (0 <= out_score out <= 100)%Z
  /\ (out_label out = "true" <-> (70 <= out_score out)%Z)
  /\ (out_label out = "fake" <-> (out_score out <= 30)%Z)
  /\ (out_label out = "uncertain" <-> (30 < out_score out < 70)%Z)
  /\ ((0 <= out_confidence out)%Q /\ (out_confidence out <= 1)%Q)
  /\ (1 <= List.length (out_explanation out) <= 13)%nat.
Proof.
  intro H.
  destruct (get_db env) as [db | e0] eqn:D;
    [ | unfold verify in H; rewrite D in H; discriminate H].
  destruct (Model.classify_text (client env) (Notions.classifier_input input) "en")
    as [r | e1] eqn:C;
    [ | unfold verify in H; rewrite D in H; cbn [bind] in H;
        rewrite heuristic_eq, C in H; discriminate H].
  destruct (verify_stored env input db r D C) as [out' [V [L [S [F [_ [_ X]]]]]]].
  rewrite V in H. injection H as H. subst out'.
  destruct (classify_text_consistent _ _ _ _ C) as [RL [RS RC]].
  unfold Notions.merged in *.
  set (v := fst (Notions.fact_check env input)) in *.
  set (s := snd (Notions.fact_check env input)) in *.
  set (e := compose_explanation (features r) (insights r)) in *.
  destruct (merged_consistent r e v s RL RS RC) as [[M1 [M2 M3]] [M4 M5]].
  pose proof (compose_explanation_length (features r) (insights r)) as CL. fold e in CL.
  pose proof (merge_verdict_length r e v s) as ML.
  rewrite L, S, F.
  split; [exact M4 | ]. split; [exact M1 | ]. split; [exact M2 | ].
  split; [exact M3 | ]. split; [exact M5 | ].
  destruct (save_article env _ _) as [id | e2];
    [destruct (save_verification env _ _ _) as [u | e3] | ];
    destruct X as [_ X]; rewrite X; rewrite ?length_app; cbn [List.length]; lia.
Qed.

Lemma verify_wellformed_witness :
  exists out,
    verify Examples.online_env Examples.sample_text = Ok out
    /\ (0 <= out_score out <= 100)%Z
    /\ (out_label out = "true" <-> (70 <= out_score out)%Z)
    /\ (out_label out = "fake" <-> (out_score out <= 30)%Z)
    /\ (out_label out = "uncertain" <-> (30 < out_score out < 70)%Z)
    /\ ((0 <= out_confidence out)%Q /\ (out_confidence out <= 1)%Q)
    /\ (1 <= List.length (out_explanation out) <= 13)%nat.
Proof.
  eexists. split; [reflexivity | ].
  exact (verify_wellformed Examples.online_env Examples.sample_text _ eq_refl).
Defined.

(** X17. When the fact-check search fails, [verify] answers with the label,
    the score and the confidence of the classifier and with the composed
    explanation, followed at most by the note of a failed save. *)
Theorem verify_without_fact_check (env : Env) (input : string) (out : VerifyOut) :
  raises (search_api env (take 120 (strip input)) "en") = true ->
  verify env input = Ok out ->
  exists r,
    Model.classify_text (client env) (Notions.classifier_input input) "en" = Ok r
    /\ out_label out = label r
    /\ out_score out = score r
    /\ out_confidence out = confidence r
    /\ (out_explanation out = compose_explanation (features r) (insights r)
        \/ exists exn,
             out_explanation out
             = compose_explanation (features r) (insights r) ++ [db_note exn]).
Proof.
  intros R H.
  destruct (get_db env) as [db | e0] eqn:D;
    [ | unfold verify in H; rewrite D in H; discriminate H].
  destruct (Model.classify_text (client env) (Notions.classifier_input input) "en")
    as [r | e1] eqn:C;
    [ | unfold verify in H; rewrite D in H; cbn [bind] in H;
        rewrite heuristic_eq, C in H; discriminate H].
  destruct (verify_stored env input db r D C) as [out' [V [L [S [F [_ [_ X]]]]]]].
  rewrite V in H. injection H as H. subst out'.
  assert (E : Notions.fact_check env input = (None, [])).
  { unfold Notions.fact_check, fact_check_search.
    destruct (search_api env (take 120 (strip input)) "en"); [discriminate R | reflexivity]. }
  unfold Notions.merged in *. rewrite E in *. cbn [fst snd] in *.
  rewrite merge_verdict_eq in *. cbn [overrides fst snd firstn] in *.
  rewrite app_nil_r in X.
  exists r. split; [reflexivity | ]. split; [exact L | ]. split; [exact S | ].
  split; [exact F | ].
  destruct (save_article env _ _) as [id | e2];
    [destruct (save_verification env _ _ _) as [u | e3] | ];
    destruct X as [_ X]; rewrite X; [left | right; eexists | right; eexists]; reflexivity.
Qed.

Lemma verify_without_fact_check_witness :
  exists out r,
    verify Examples.offline_env Examples.breaking_text = Ok out
    /\ Model.classify_text None (Notions.classifier_input Examples.breaking_text) "en"
       = Ok r
    /\ out_label out = label r
    /\ out_score out = score r
    /\ out_confidence out = confidence r.
Proof.
  eexists.
  destruct (verify_without_fact_check Examples.offline_env Examples.breaking_text _
                                      eq_refl eq_refl) as [r [C [L [S [F _]]]]].
  exists r. split; [reflexivity | ]. repeat (split; [assumption | ]). exact F.
Defined.

Section Splitting.

Variable sep : ascii.

Lemma count_if_nonneg (p : ascii -> bool) (s : string) : (0 <= count_if p s)%Z.
Proof. induction s as [ | c s IH]; cbn [count_if]; [lia | destruct (p c); lia]. Qed.

Lemma free_of_cons (c : ascii) (s : string) :
  Notions.free_of sep (String c s) <-> Ascii.eqb sep c = false /\ Notions.free_of sep s.
Proof.
  unfold Notions.free_of, count_char. cbn [count_if].
  pose proof (count_if_nonneg (Ascii.eqb sep) s).
  destruct (Ascii.eqb sep c); split; try lia; intros [K1 K2]; try discriminate; lia.
Qed.

Lemma free_of_app (a b : string) :
  Notions.free_of sep (a ++ b) <-> Notions.free_of sep a /\ Notions.free_of sep b.
Proof.
  induction a as [ | c a IH]; cbn [append].
  - unfold Notions.free_of at 2. cbn. intuition.
  - rewrite !free_of_cons, IH. intuition.
Qed.

Lemma contains_char (s : string) :
  contains (String sep "") s = false <-> Notions.free_of sep s.
Proof.
  induction s as [ | c s IH].
  - cbn. split; reflexivity.
  - rewrite free_of_cons, <- IH. cbn [contains String.prefix].
    destruct (ascii_dec sep c) as [E | E].
    + subst c. rewrite Ascii.eqb_refl. destruct s; cbn; split; try discriminate;
        intros [K _]; discriminate K.
    + apply Ascii.eqb_neq in E. rewrite E. cbn [orb]. intuition.
Qed.

(** The pieces of a split hold no separator, and the text is the pieces
    with one separator before each but the first. *)
Lemma split_pieces_spec (s : string) :
  let p := fst (split_pieces sep s) in
  let ps := snd (split_pieces sep s) in
  Notions.free_of sep p
  /\ Forall (Notions.free_of sep) ps
  /\ s = (p ++ String.concat "" (map (String sep) ps))%string.
Proof.
  induction s as [ | c s IH]; cbn [split_pieces].
  - cbn. repeat split. constructor.
  - destruct (split_pieces sep s) as [p ps]. cbn [fst snd] in *.
    destruct IH as [F1 [F2 E]].
    destruct (Ascii.eqb c sep) eqn:B; cbn [fst snd].
    + apply Ascii.eqb_eq in B. subst c. split; [reflexivity | ].
      split; [constructor; assumption | ].
      cbn [map append]. rewrite concat_cons. cbn [append]. rewrite <- E. reflexivity.
    + split; [ | split; [exact F2 | cbn [append]; rewrite <- E; reflexivity]].
      apply free_of_cons. split; [ | exact F1].
      rewrite Ascii.eqb_sym. exact B.
Qed.

Lemma split_pieces_free (s : string) :
  Notions.free_of sep s -> split_pieces sep s = (s, []).
Proof.
  induction s as [ | c s IH]; intro F; [reflexivity | ].
  apply free_of_cons in F. destruct F as [F1 F2].
  cbn [split_pieces]. rewrite (IH F2), Ascii.eqb_sym, F1. reflexivity.
Qed.

Lemma split_pieces_app (p rest : string) :
  Notions.free_of sep p ->
  split_pieces sep (p ++ String sep rest)
  = (p, fst (split_pieces sep rest) :: snd (split_pieces sep rest)).
Proof.
  induction p as [ | c p IH]; intro F.
  - cbn [append split_pieces]. destruct (split_pieces sep rest) as [q qs].
    rewrite Ascii.eqb_refl. reflexivity.
  - apply free_of_cons in F. destruct F as [F1 F2].
    cbn [append split_pieces]. rewrite (IH F2), Ascii.eqb_sym, F1. reflexivity.
Qed.

Lemma split_join (p : string) (ps : list string) :
  Forall (Notions.free_of sep) (p :: ps) ->
  split sep (join (String sep "") (p :: ps)) = p :: ps.
Proof.
  revert p. induction ps as [ | q ps IH]; intros p F; inversion F as [ | ? ? F1 F2]; subst.
  - unfold split, join. cbn [String.concat]. rewrite (split_pieces_free p F1). reflexivity.
  - specialize (IH q F2). unfold split, join in *.
    cbn [String.concat]. cbn [String.concat] in IH.
    change (p ++ String sep "" ++ ?x)%string with (p ++ String sep x)%string.
    rewrite (split_pieces_app p _ F1).
    destruct (split_pieces sep _) as [a b]. cbn [fst snd]. rewrite IH. reflexivity.
Qed.

End Splitting.

Section Segments.

Lemma append_assoc (a b c : string) : ((a ++ b) ++ c = a ++ (b ++ c))%string.
Proof. induction a as [ | x a IH]; cbn [append]; [ | rewrite IH]; reflexivity. Qed.

Lemma last_segment (sep : ascii) (ps : list string) :
  ps <> [] ->
  exists pre,
    String.concat "" (map (String sep) ps) = (pre ++ String sep (last ps ""))%string.
Proof.
  induction ps as [ | q ps IH]; intro N; [contradiction N; reflexivity | ].
  destruct ps as [ | q' ps].
  - exists "". reflexivity.
  - destruct IH as [pre E]; [discriminate | ].
    exists (String sep q ++ pre)%string.
    cbn [map] in *. rewrite concat_cons, E. cbn [last].
    rewrite append_assoc. reflexivity.
Qed.

Lemma lstrip_suffix (s : string) : exists pre, s = (pre ++ lstrip s)%string.
Proof.
  induction s as [ | c s [pre IH]]; [exists ""; reflexivity | ].
  cbn [lstrip]. destruct (char_isspace c).
  - exists (String c pre). cbn [append]. rewrite <- IH. reflexivity.
  - exists "". reflexivity.
Qed.

Lemma rstrip_prefix (s : string) : exists suf, s = (rstrip s ++ suf)%string.
Proof.
  induction s as [ | c s [suf IH]]; [exists ""; reflexivity | ].
  cbn [rstrip]. destruct (is_empty (rstrip s) && char_isspace c).
  - exists (String c s). reflexivity.
  - exists suf. cbn [append]. rewrite <- IH. reflexivity.
Qed.

Lemma strip_free_of (c : ascii) (s : string) :
  Notions.free_of c s -> Notions.free_of c (strip s).
Proof.
  intro F. unfold strip.
  destruct (rstrip_prefix s) as [suf E1]. rewrite E1 in F.
  apply free_of_app in F. destruct F as [F _].
  destruct (lstrip_suffix (rstrip s)) as [pre E2]. rewrite E2 in F.
  apply free_of_app in F. apply F.
Qed.

Lemma trimmed_strip (s : string) : Notions.trimmed s -> strip s = s.
Proof. intros [_ [L R]]. unfold strip. rewrite R. exact L. Qed.

End Segments.

(** X18. The short name of a category is its last path segment: it holds no
    slash, the category ends with it, and when the category has a slash
    the short name is what follows the last one. *)
Theorem shorten_last_segment (c : string) :
  Notions.free_of "/" (shorten c)
  /\ (contains "/" c = false -> shorten c = c)
  /\ (contains "/" c = true -> exists pre, c = (pre ++ "/" ++ shorten c)%string).
Proof.
  unfold shorten. destruct (contains "/" c) eqn:B.
  - pose proof (split_pieces_spec "/" c) as [F1 [F2 E]].
    unfold split. destruct (split_pieces "/" c) as [p ps]. cbn [fst snd] in *.
    destruct ps as [ | q ps].
    + cbn in E. rewrite append_empty_r in E. subst p.
      apply contains_char in F1. congruence.
    + destruct (last_segment "/" (q :: ps)) as [pre L]; [discriminate | ].
      change (last (p :: q :: ps) "") with (last (q :: ps) "").
      split; [ | split; [discriminate | ]].
      * assert (K : In (last (q :: ps) "") (q :: ps)).
        { destruct (exists_last (l := q :: ps)) as [l' [a K]]; [discriminate | ].
          rewrite K, last_last. apply in_or_app. right. left. reflexivity. }
        revert K. apply Forall_forall, F2.
      * intros _. exists (p ++ pre)%string. rewrite E at 1. rewrite L.
        rewrite append_assoc. reflexivity.
  - split; [apply contains_char, B | ]. split; [reflexivity | discriminate].
Qed.

Lemma shorten_last_segment_witness :
  shorten "plain" = "plain"
  /\ exists pre, "/News/Politics" = (pre ++ "/" ++ shorten "/News/Politics")%string.
Proof.
  split.
  - exact (proj1 (proj2 (shorten_last_segment "plain")) eq_refl).
  - exact (proj2 (proj2 (shorten_last_segment "/News/Politics")) eq_refl).
Defined.

(** X19. The allowed origins read from the setting are not empty, have no
    whitespace at either end and hold no comma; written back with commas
    and read again they are the same list. *)
Theorem origins_round_trip (setting : string) :
  Forall Notions.trimmed (Config.origins setting)
  /\ Forall (Notions.free_of ",") (Config.origins setting)
  /\ Config.origins (join "," (Config.origins setting)) = Config.origins setting.
Proof.
  assert (T : Forall Notions.trimmed (Config.origins setting)).
  { unfold Config.origins. apply Forall_forall. intros o K.
    apply in_map_iff in K. destruct K as [x [E K]]. subst o.
    apply filter_In in K. destruct K as [_ K].
    apply strip_trimmed. intro Z. rewrite Z in K. discriminate K. }
  assert (F : Forall (Notions.free_of ",") (Config.origins setting)).
  { unfold Config.origins. apply Forall_forall. intros o K.
    apply in_map_iff in K. destruct K as [x [E K]]. subst o.
    apply filter_In in K. destruct K as [K _]. apply strip_free_of.
    pose proof (split_pieces_spec "," setting) as [F1 [F2 _]].
    unfold split in K. destruct (split_pieces "," setting) as [p ps].
    cbn [fst snd] in *. destruct K as [K | K]; [subst x; exact F1 | ].
    revert x K. apply Forall_forall, F2. }
  split; [exact T | ]. split; [exact F | ].
  destruct (Config.origins setting) as [ | p ps]; [reflexivity | ].
  unfold Config.origins at 1. rewrite (split_join "," p ps F).
  assert (K : forall l, Forall Notions.trimmed l ->
                        map strip (filter (fun o => negb (is_empty (strip o))) l) = l).
  { induction l as [ | x l IH]; intro H; [reflexivity | ].
    inversion H as [ | ? ? H1 H2]; subst. cbn [filter].
    rewrite (trimmed_strip x H1). destruct H1 as [N _].
    destruct x; [contradiction N; reflexivity | ].
    cbn [is_empty negb map]. rewrite (trimmed_strip _ (Forall_inv H)), (IH H2).
    reflexivity. }
  apply K, T.
Qed.

Section Singletons.

Lemma client_calls_kept (creates : list (Res Client)) (kept : option Client) :
  ClientCache.calls creates (Some kept) = repeat kept (List.length creates).
Proof.
  induction creates as [ | c creates IH]; [reflexivity | ].
  cbn [ClientCache.calls ClientCache._client List.length repeat]. rewrite IH. reflexivity.
Qed.

Lemma firebase_calls_kept {Db : Type} (worlds : list (Firebase.World Db))
      (st : Firebase.State Db) (db : Db) :
  Firebase._DB st = Some db ->
  Firebase.calls worlds st = repeat (Ok db) (List.length worlds).
Proof.
  intro H. induction worlds as [ | w worlds IH]; [reflexivity | ].
  cbn [Firebase.calls List.length repeat].
  unfold Firebase.get_db, Firebase.init_firebase. rewrite H. rewrite IH. reflexivity.
Qed.

End Singletons.

(** X20. The cached client is decided by the first call: every later call
    returns what the first one returned, whatever the constructor would do
    by then.  In particular a failed creation is remembered, and the client
    stays absent even when the constructor would succeed later. *)
Theorem client_decided_once (create : Res Client) (creates : list (Res Client)) :
  ClientCache.calls (create :: creates) None
  = repeat (match create with Ok c => Some c | Raise _ => None end)
           (S (List.length creates))
  /\ (raises create = true ->
      ClientCache.calls (create :: creates) None
      = repeat None (S (List.length creates))).
Proof.
  assert (E : ClientCache.calls (create :: creates) None
              = repeat (match create with Ok c => Some c | Raise _ => None end)
                       (S (List.length creates))).
  { cbn [ClientCache.calls ClientCache._client repeat].
    rewrite client_calls_kept. reflexivity. }
  split; [exact E | ]. intro R. rewrite E.
  destruct create; [discriminate R | reflexivity].
Qed.

Lemma client_decided_once_witness :
  ClientCache.calls [Raise "DefaultCredentialsError"; Ok Examples.sample_client;
                     Ok Examples.sample_client] None
  = [None; None; None].
Proof.
  exact (proj2 (client_decided_once (Raise "DefaultCredentialsError")
                                    [Ok Examples.sample_client; Ok Examples.sample_client])
               eq_refl).
Defined.

(** X21. [get_db] is a lazy singleton.  A call that returns a handle stores
    it, and every later call returns that same handle whatever has become
    of the credentials and of the SDK; a call that raises stores nothing,
    so that the next call tries again; and without a credentials file the
    call raises FileNotFoundError and changes nothing. *)
Theorem get_db_singleton {Db : Type} (w : Firebase.World Db) (st : Firebase.State Db) :
  match fst (Firebase.get_db w st) with
  | Ok db =>
      Firebase._DB (snd (Firebase.get_db w st)) = Some db
      /\ forall worlds,
           Firebase.calls worlds (snd (Firebase.get_db w st))
           = repeat (Ok db) (List.length worlds)
  | Raise _ =>
      Firebase._DB st = None /\ Firebase._DB (snd (Firebase.get_db w st)) = None
  end
  /\ (Firebase._DB st = None ->
      Firebase.path_exists w Firebase.EXPLICIT_PATH = false ->
      (forall path, Firebase.credentials_env w = Some path ->
                    Firebase.path_exists w path = false) ->
      Firebase.get_db w st = (Raise "FileNotFoundError", st)).
Proof.
  unfold Firebase.get_db. split.
  - unfold Firebase.init_firebase.
    destruct (Firebase._DB st) as [db | ] eqn:D.
    + cbn [fst snd]. split; [exact D | ]. intro worlds.
      apply firebase_calls_kept, D.
    + destruct (if Firebase.path_exists w Firebase.EXPLICIT_PATH
                then Some Firebase.EXPLICIT_PATH else Firebase.credentials_env w)
        as [path | ]; [ | cbn [fst snd]; auto].
      destruct (is_empty path || negb (Firebase.path_exists w path));
        [cbn [fst snd]; auto | ].
      destruct (Firebase.apps st).
      * destruct (Firebase.firestore_client w) as [db | e]; cbn [fst snd Firebase._DB].
        { split; [reflexivity | ]. intro worlds. apply firebase_calls_kept. reflexivity. }
        { auto. }
      * destruct (Firebase.initialize_app w path) as [u | e]; [ | cbn [fst snd]; auto].
        destruct (Firebase.firestore_client w) as [db | e]; cbn [fst snd Firebase._DB].
        { split; [reflexivity | ]. intro worlds. apply firebase_calls_kept. reflexivity. }
        { auto. }
  - intros D P C. unfold Firebase.init_firebase. rewrite D, P.
    destruct (Firebase.credentials_env w) as [path | ]; [ | reflexivity].
    rewrite (C path eq_refl). rewrite orb_true_r. reflexivity.
Qed.

Lemma get_db_singleton_witness :
  Firebase.get_db Samples.bare_world Samples.fresh_state
  = (Raise "FileNotFoundError", Samples.fresh_state)
  /\ Firebase.calls [Samples.bare_world; Samples.bare_world]
                    (snd (Firebase.get_db Samples.ready_world Samples.fresh_state))
     = [Ok "firestore"; Ok "firestore"].
Proof.
  split.
  - apply (proj2 (get_db_singleton Samples.bare_world Samples.fresh_state));
      [reflexivity | reflexivity | discriminate].
  - exact (proj2 (proj1 (get_db_singleton Samples.ready_world Samples.fresh_state))
                 [Samples.bare_world; Samples.bare_world]).
Defined.

Section Degraded.

Lemma visible_strip_nonempty (s : string) : Notions.visible s <> "" -> strip s <> "".
Proof.
  intros H E. apply H. rewrite <- visible_strip, E. reflexivity.
Qed.

Lemma classifier_input_not_blank (input : string) :
  strip (Notions.classifier_input input) <> "".
Proof.
  apply visible_strip_nonempty. unfold Notions.classifier_input.
  rewrite visible_app. cbn [append Notions.visible].
  change (char_isspace ".") with false. change (char_isspace " ") with true. cbv iota.
  destruct (Notions.visible (take 120 (strip input))); discriminate.
Qed.

Lemma shown_notables_head (p : string) (rest : list string) :
  Notions.trimmed p -> exists more, Spec.shown_notables (p :: rest) = p :: more.
Proof.
  intro T. unfold Spec.shown_notables, Spec.dedupe_by. cbn [map].
  rewrite (trimmed_strip p T). destruct T as [N _].
  destruct p as [ | c p]; [contradiction N; reflexivity | ].
  cbn [filter is_empty negb Spec.dedupe_from mem existsb firstn].
  eexists. reflexivity.
Qed.

Lemma body_not_generic (f : Features) (i : Insights) :
  ~ In GENERIC_LINE (Spec.explanation_body f i).
Proof.
  unfold Spec.explanation_body. intro K.
  repeat (apply in_app_or in K; destruct K as [K | K];
          [ match type of K with
            | In _ (Spec.line_if ?b _) =>
                destruct b; cbn [Spec.line_if In] in K;
                [destruct K as [K | []]; discriminate K | destruct K]
            end | ]).
  apply in_map_iff in K. destruct K as [s [K _]]. discriminate K.
Qed.

End Degraded.

(** X22. In degraded mode [verify] never explains itself with the generic
    line: the text it gives to the classifier always has a sentence, so the
    explanation holds a notable line, and it is the list of the lines whose
    conditions hold. *)
Theorem degraded_explanation_never_generic (env : Env) (input : string)
        (r : Result) (e : list string) :
  Spec.provider_unavailable (client env) (Notions.classifier_input input) "en" = true ->
  heuristic env (strip input) = Ok (r, e) ->
  ~ In GENERIC_LINE e
  /\ e = Spec.explanation_body (features r) (insights r)
  /\ exists s, Notions.trimmed s /\ In (notable_line s) e.
Proof.
  intros U H. rewrite heuristic_eq in H.
  destruct (classify_text_degraded _ _ _ U) as [p [_ C]]. rewrite C in H.
  cbn [bind] in H.
  assert (Hr : r = Spec.fallback_result (Notions.classifier_input input) p) by congruence.
  assert (He : compose_explanation
                 (features (Spec.fallback_result (Notions.classifier_input input) p))
                 (insights (Spec.fallback_result (Notions.classifier_input input) p))
               = e) by congruence.
  clear H. subst r.
  destruct (split_sentences_pieces (Notions.classifier_input input)) as [T [_ [_ NE]]].
  specialize (T (classifier_input_not_blank input)).
  destruct (_split_sentences (Notions.classifier_input input)) as [ | s ss] eqn:S.
  { exact (False_ind _ (NE eq_refl)). }
  assert (Ts : Notions.trimmed s) by (inversion T; assumption).
  destruct (shown_notables_head s (firstn 1 ss) Ts) as [more N].
  assert (B : exists pre,
             Spec.explanation_body
               (features (Spec.fallback_result (Notions.classifier_input input) p))
               (insights (Spec.fallback_result (Notions.classifier_input input) p))
             = pre ++ notable_line s :: map notable_line more).
  { unfold Spec.explanation_body.
    cbn [Spec.fallback_result insights notable_sentences].
    rewrite S. change (firstn 2 (s :: ss)) with (s :: firstn 1 ss).
    rewrite N. cbn [map].
    eexists. rewrite !app_assoc. reflexivity. }
  destruct B as [pre B].
  assert (E : e = Spec.explanation_body
                    (features (Spec.fallback_result (Notions.classifier_input input) p))
                    (insights (Spec.fallback_result (Notions.classifier_input input) p))).
  { rewrite <- He, compose_explanation_body, B.
    destruct pre; reflexivity. }
  split; [rewrite E; apply body_not_generic | ]. split; [exact E | ].
  exists s. split; [exact Ts | ]. rewrite E, B. apply in_or_app. right. left. reflexivity.
Qed.

Lemma degraded_explanation_never_generic_witness :
  exists r e,
    heuristic Examples.offline_env (strip "") = Ok (r, e)
    /\ ~ In GENERIC_LINE e
    /\ e = Spec.explanation_body (features r) (insights r)
    /\ exists s, Notions.trimmed s /\ In (notable_line s) e.
Proof.
  eexists. eexists. split; [reflexivity | ].
  exact (degraded_explanation_never_generic Examples.offline_env "" _ _ eq_refl eq_refl).
Defined.

Section Doubling.

Lemma count_if_app (p : ascii -> bool) (a b : string) :
  count_if p (a ++ b) = (count_if p a + count_if p b)%Z.
Proof.
  induction a as [ | c a IH]; cbn [append count_if]; [reflexivity | ].
  rewrite IH. lia.
Qed.

Lemma lower_app (a b : string) : lower (a ++ b) = (lower a ++ lower b)%string.
Proof.
  induction a as [ | c a IH]; cbn [append lower]; [ | rewrite IH]; reflexivity.
Qed.

Lemma len_app (a b : string) : len (a ++ b) = (len a + len b)%Z.
Proof.
  unfold len. induction a as [ | c a IH]; cbn [append String.length]; [reflexivity | ].
  rewrite !Nat2Z.inj_succ, IH. lia.
Qed.

(** A character that is not a letter separates the words on its two sides. *)
Lemma alpha_runs_app (a b : string) (c : ascii) :
  char_isalpha c = false ->
  alpha_runs (a ++ String c b)
  = (fst (alpha_runs a), snd (alpha_runs a) ++ findall_alpha b).
Proof.
  intro N. induction a as [ | x a IH].
  - cbn [append alpha_runs fst snd app]. unfold findall_alpha.
    destruct (alpha_runs b) as [run runs]. rewrite N. reflexivity.
  - cbn [append alpha_runs]. rewrite IH.
    destruct (alpha_runs a) as [run runs]. cbn [fst snd].
    destruct (char_isalpha x); cbn [fst snd]; [reflexivity | ].
    destruct (is_empty run); reflexivity.
Qed.

Lemma findall_alpha_app (a b : string) (c : ascii) :
  char_isalpha c = false ->
  findall_alpha (a ++ String c b) = findall_alpha a ++ findall_alpha b.
Proof.
  intro N. unfold findall_alpha at 1 2. rewrite (alpha_runs_app a b c N).
  destruct (alpha_runs a) as [run runs]. cbn [fst snd].
  destruct (is_empty run); reflexivity.
Qed.

Lemma sensational_words_joined (a b : string) :
  sensational_words (a ++ ". " ++ b) = sensational_words a ++ sensational_words b.
Proof.
  unfold sensational_words. rewrite lower_app. cbn [append lower].
  change (char_lower ".") with "."%char. change (char_lower " ") with " "%char.
  rewrite (findall_alpha_app (lower a) _ "." eq_refl).
  change (String " " (lower b)) with ("" ++ String " " (lower b))%string.
  rewrite (findall_alpha_app "" (lower b) " " eq_refl).
  cbn [app]. change (findall_alpha "") with (@nil string). cbn [app].
  apply filter_app.
Qed.

End Doubling.

(** X23. [verify] gives the classifier the title, a full stop and the text,
    and the title is the beginning of the text: the signals of the first
    120 characters are counted twice.  For an input of at most 120
    characters the classifier sees twice the capitals, twice the
    exclamation marks and twice the sensational words of the input, in
    twice its length plus 2. *)
Theorem classifier_input_doubles (input : string) :
  let t := strip input in
  let x := Notions.classifier_input input in
  Spec.exclam_count x = (Spec.exclam_count (take 120 t) + Spec.exclam_count t)%Z
  /\ count_if char_isupper x
     = (count_if char_isupper (take 120 t) + count_if char_isupper t)%Z
  /\ sensational_words x = sensational_words (take 120 t) ++ sensational_words t
  /\ ((String.length t <= 120)%nat ->
      Spec.exclam_count x = (2 * Spec.exclam_count t)%Z
      /\ count_if char_isupper x = (2 * count_if char_isupper t)%Z
      /\ sensational_words x = sensational_words t ++ sensational_words t
      /\ len x = (2 * len t + 2)%Z).
Proof.
  intros t x.
  assert (A : Spec.exclam_count x
              = (Spec.exclam_count (take 120 t) + Spec.exclam_count t)%Z).
  { unfold x, Notions.classifier_input, Spec.exclam_count, count_char.
    rewrite !count_if_app. fold t.
    change (count_if (Ascii.eqb "!") ". ") with 0%Z. lia. }
  assert (B : count_if char_isupper x
              = (count_if char_isupper (take 120 t) + count_if char_isupper t)%Z).
  { unfold x, Notions.classifier_input. rewrite !count_if_app. fold t.
    change (count_if char_isupper ". ") with 0%Z. lia. }
  assert (C : sensational_words x = sensational_words (take 120 t) ++ sensational_words t).
  { apply sensational_words_joined. }
  split; [exact A | ]. split; [exact B | ]. split; [exact C | ].
  intro L. rewrite A, B, C. rewrite (take_all 120 t L).
  split; [lia | ]. split; [lia | ]. split; [reflexivity | ].
  unfold x, Notions.classifier_input. fold t. rewrite (take_all 120 t L).
  rewrite !len_app. change (len ". ") with 2%Z. lia.
Qed.

Lemma classifier_input_doubles_witness :
  Spec.exclam_count (Notions.classifier_input "Wow!! A miracle") = 4%Z
  /\ sensational_words (Notions.classifier_input "Wow!! A miracle")
     = ["miracle"; "miracle"].
Proof.
  destruct (proj2 (proj2 (proj2 (classifier_input_doubles "Wow!! A miracle"))))
    as [E [_ [W _]]].
  - apply Nat.leb_le. reflexivity.
  - split; [exact E | exact W].
Defined.

Section Monotone.




Lemma take_app_long (n : nat) (a b : string) :
  (n <= String.length a)%nat -> take n (a ++ b) = take n a.
Proof.
  revert a. induction n as [ | n IH]; intros [ | c a] H; cbn in *; try reflexivity; try lia.
  rewrite IH by lia. reflexivity.
Qed.

End Monotone.



(** X25. The provider is given the first 20000 characters of the text and
    nothing more: what follows them does not change the analysis. *)
Theorem analyze_sees_prefix (client : option Client) (text more lang : string) :
  (20000 <= len text)%Z ->
  _analyze client (text ++ more) lang = _analyze client text lang.
Proof.
  intro H.
  assert (E : forall l, plain_text (text ++ more) l = plain_text text l).
  { intro l. unfold plain_text. rewrite take_app_long; [reflexivity | ].
    unfold len in H. lia. }
  unfold _analyze. rewrite !E. reflexivity.
Qed.

Lemma analyze_sees_prefix_witness :
  _analyze (Some Examples.sample_client) (Samples.long_text ++ "!!!") "en"
  = _analyze (Some Examples.sample_client) Samples.long_text "en".
Proof.
  apply (analyze_sees_prefix (Some Examples.sample_client) Samples.long_text "!!!" "en").
  apply Z.leb_le. vm_compute. reflexivity.
Defined.

Section Relevance.

Lemma shout_bonus_value (s : string) : shout_bonus s = Ok (Notions.bonus_of s).
Proof. unfold shout_bonus. rewrite truediv_max1. reflexivity. Qed.

Lemma for_each_ranked (sentences : list (string * Q)) (acc : list (Q * string)) :
  for_each (fun candidates '(s, mag) =>
              bonus <- shout_bonus s ;;
              Ok (candidates ++ [((mag + bonus)%Q, strip s)]))
           sentences acc
  = Ok (acc ++ map (fun sm => (Notions.relevance sm, strip (fst sm))) sentences).
Proof.
  revert acc. induction sentences as [ | [s mag] l IH]; intro acc.
  - cbn. rewrite app_nil_r. reflexivity.
  - cbn [for_each]. rewrite shout_bonus_value. cbn [bind]. rewrite IH.
    cbn [map]. rewrite <- app_assoc. reflexivity.
Qed.

Lemma insert_desc_map {A B : Type} (key : B -> Q) (g : A -> B) (x : A) (l : list A) :
  insert_desc key (g x) (map g l) = map g (insert_desc (fun a => key (g a)) x l).
Proof.
  induction l as [ | y l IH]; cbn [map insert_desc]; [reflexivity | ].
  destruct (float_lt (key (g x)) (key (g y))); cbn [map]; [rewrite IH | ]; reflexivity.
Qed.

Lemma sorted_desc_map {A B : Type} (key : B -> Q) (g : A -> B) (l : list A) :
  sorted_desc key (map g l) = map g (sorted_desc (fun a => key (g a)) l).
Proof.
  induction l as [ | x l IH]; [reflexivity | ].
  cbn [map sorted_desc fold_right]. fold (sorted_desc key (map g l)).
  fold (sorted_desc (fun a => key (g a)) l). rewrite IH. apply insert_desc_map.
Qed.

Lemma collect_insights_ranked (text : string) (sm : string * Q)
      (sentences : list (string * Q)) (entities : list Entity) :
  exists ke st,
    _collect_insights text (sm :: sentences) entities
    = Ok {| key_entities := ke;
            sensational_terms := st;
            notable_sentences :=
              filter (fun s => negb (is_empty s))
                     (map snd
                        (firstn 3
                           (sorted_desc fst
                              (map (fun x => (Notions.relevance x, strip (fst x)))
                                   (sm :: sentences))))) |}.
Proof.
  unfold _collect_insights. rewrite for_each_ranked. cbn [app map bind].
  eexists. eexists. reflexivity.
Qed.

End Relevance.

(** X26. When the provider gave sentences, the notable sentences are the 3
    sentences of highest relevance (the magnitude, plus 0.8 for an
    exclamation mark, plus 0.8 for a capitals ratio above 0.12), most
    relevant first, trimmed, the blank ones dropped: no sentence left out
    is more relevant than one that is kept. *)
Theorem notable_sentences_ranked (text : string) (sentences : list (string * Q))
        (entities : list Entity) (i : Insights) :
  sentences <> [] ->
  _collect_insights text sentences entities = Ok i ->
  exists kept rest,
    Permutation (kept ++ rest) sentences
    /\ List.length kept = Nat.min 3 (List.length sentences)
    /\ StronglySorted (Notions.not_above Notions.relevance) kept
    /\ (forall a b, In a kept -> In b rest ->
                    (Notions.relevance b <= Notions.relevance a)%Q)
    /\ notable_sentences i
       = filter (fun s => negb (is_empty s)) (map (fun sm => strip (fst sm)) kept).
Proof.
  intros N H.
  set (ranked := sorted_desc Notions.relevance sentences).
  exists (firstn 3 ranked), (skipn 3 ranked).
  destruct (sorted_split Notions.relevance 3 _
                         (sorted_desc_sorted Notions.relevance sentences)) as [S T].
  split; [rewrite firstn_skipn; apply sorted_desc_perm | ].
  split.
  { rewrite length_firstn. unfold ranked.
    rewrite (Permutation_length (sorted_desc_perm Notions.relevance sentences)).
    reflexivity. }
  split; [exact S | ]. split; [exact T | ].
  destruct sentences as [ | sm sentences]; [contradiction N; reflexivity | ].
  destruct (collect_insights_ranked text sm sentences entities) as [ke [st E]].
  assert (K : notable_sentences i
              = filter (fun s => negb (is_empty s))
                       (map snd
                          (firstn 3
                             (sorted_desc fst
                                (map (fun x => (Notions.relevance x, strip (fst x)))
                                     (sm :: sentences)))))).
  { rewrite E in H. injection H as H. rewrite <- H. reflexivity. }
  rewrite K.
  rewrite (sorted_desc_map fst (fun x => (Notions.relevance x, strip (fst x)))).
  cbn [fst]. rewrite firstn_map, map_map. reflexivity.
Qed.

Lemma notable_sentences_ranked_witness :
  exists i kept rest,
    _collect_insights Examples.sample_text
                      [("Calm words.", 0.9); ("LOUD WORDS!", 0.3)] [] = Ok i
    /\ Permutation (kept ++ rest) [("Calm words.", 0.9); ("LOUD WORDS!", 0.3)]
    /\ List.length kept = 2%nat
    /\ notable_sentences i
       = filter (fun s => negb (is_empty s)) (map (fun sm => strip (fst sm)) kept).
Proof.
  eexists.
  destruct (notable_sentences_ranked Examples.sample_text
              [("Calm words.", 0.9); ("LOUD WORDS!", 0.3)] [] _
              ltac:(discriminate) eq_refl) as [kept [rest [P [L [_ [_ E]]]]]].
  exists kept, rest. split; [reflexivity | ]. split; [exact P | ].
  split; [exact L | exact E].
Defined.
